(** * Rave: room registry, room state machine and playback synchronisation

    A shallow embedding of the socket handlers of [src/client.js] (the
    sync-play client callback, lines 6-9, and the server's connection
    handlers, lines 105-289), followed by the properties of the room state
    machine that the specification states about them.

    Conventions of the embedding:
    - the registry [rooms] (a JS [Map] from room code to room object) is a
      [gmap string Room];
    - [socket.rooms] (a JS [Set], iterated in insertion order) is a list of
      room names without repetition, extended by [socket_join];
    - a handler is a function from the socket it runs on, the request
      payload and the registry to an [Outcome]: the socket after the call,
      the registry after the call and the events emitted, in order;
    - [Date.now()] and the successive results of [generateRoomCode()] are
      inputs of the handlers;
    - the JS numbers that carry playback positions are kept abstract (class
      [JsNumber]): the server only stores and forwards them, the client
      combines them with [-], [/] and [+], which stay uninterpreted;
    - [currentIndex] only ever holds an integer or [NaN]; it is a [JsInt]. *)

From Stdlib Require Import ZArith.
From Stdlib Require QArith.
From stdpp Require Import base strings list gmap.

Local Open Scope Z_scope.

(** ** JavaScript values used by the handlers *)

(** Playback positions: IEEE doubles in the source, abstract here. *)
Class JsNumber (num : Type) := {
  num_of_Z : Z → num;
  num_add : num → num → num;
  num_sub : num → num → num;
  num_div : num → num → num
}.

(** [room.currentIndex]: an integer, or [NaN] once a remainder by zero has
    been taken. *)
Inductive JsInt :=
| Idx (i : Z)
| NaN.

(** [a + z] for an integer literal or length [z]. *)
Definition js_add (a : JsInt) (z : Z) : JsInt :=
  match a with
  | Idx i => Idx (i + z)
  | NaN => NaN
  end.

(** [a % n]: the remainder takes the sign of the dividend, and [x % 0] is
    [NaN]. *)
Definition js_rem (a : JsInt) (n : Z) : JsInt :=
  match a with
  | Idx i => if n =? 0 then NaN else Idx (Z.rem i n)
  | NaN => NaN
  end.

(** A media reference [{type, id}]. *)
Record Media := { media_type : string; media_id : string }.

(** What [room.media] can hold: [null] (a fresh room), [undefined] (an array
    read out of range) or a media reference. *)
Inductive JsMedia :=
| JNull
| JUndefined
| JMedia (m : Media).

(** [queue[i]]: [undefined] unless [i] is an integer index inside the
    array. *)
Definition js_index (queue : list Media) (i : JsInt) : JsMedia :=
  match i with
  | Idx z =>
      if (0 <=? z) && (z <? Z.of_nat (length queue))
      then match queue !! Z.to_nat z with
           | Some m => JMedia m
           | None => JUndefined
           end
      else JUndefined
  | NaN => JUndefined
  end.

(** ** Data model *)

(** An entry of [room.users]. *)
Record User := { user_id : string; user_name : string }.

(** A connection as the handlers see it: [socket.id] and [socket.rooms]. *)
Record Socket := { sock_id : string; sock_rooms : list string }.

(** [socket.join(room)]: adding to a [Set] keeps the first occurrence. *)
Definition socket_join (sock : Socket) (room : string) : Socket :=
  {| sock_id := sock_id sock;
     sock_rooms := if bool_decide (room ∈ sock_rooms sock)
                   then sock_rooms sock
                   else sock_rooms sock ++ [room] |}.

(** The connection as the [disconnect] listener finds it. The source reads
    [socket.rooms] as a [Set] ([socket.rooms.has], lines 162-243), which is
    the interface of socket.io 3 and later; there the transport takes the
    connection out of all its rooms before it fires [disconnect] (the rooms
    are still listed during the earlier [disconnecting] event only), so the
    listener finds [socket.rooms] empty. *)
Definition at_disconnect (sock : Socket) : Socket :=
  {| sock_id := sock_id sock; sock_rooms := [] |}.

Section Rave.
Context {num : Type} `{!JsNumber num}.

(** The room object stored in the registry (lines 145-153). *)
Record Room := {
  hostId : string;
  media : JsMedia;
  queue : list Media;
  currentIndex : JsInt;
  isPlaying : bool;
  currentTime : num;
  users : list User
}.

(** Field assignments [room.f = v]. *)
Definition set_hostId (v : string) (r : Room) : Room :=
  {| hostId := v; media := media r; queue := queue r;
     currentIndex := currentIndex r; isPlaying := isPlaying r;
     currentTime := currentTime r; users := users r |}.

Definition set_media (v : JsMedia) (r : Room) : Room :=
  {| hostId := hostId r; media := v; queue := queue r;
     currentIndex := currentIndex r; isPlaying := isPlaying r;
     currentTime := currentTime r; users := users r |}.

Definition set_queue (v : list Media) (r : Room) : Room :=
  {| hostId := hostId r; media := media r; queue := v;
     currentIndex := currentIndex r; isPlaying := isPlaying r;
     currentTime := currentTime r; users := users r |}.

Definition set_currentIndex (v : JsInt) (r : Room) : Room :=
  {| hostId := hostId r; media := media r; queue := queue r;
     currentIndex := v; isPlaying := isPlaying r;
     currentTime := currentTime r; users := users r |}.

Definition set_isPlaying (v : bool) (r : Room) : Room :=
  {| hostId := hostId r; media := media r; queue := queue r;
     currentIndex := currentIndex r; isPlaying := v;
     currentTime := currentTime r; users := users r |}.

Definition set_currentTime (v : num) (r : Room) : Room :=
  {| hostId := hostId r; media := media r; queue := queue r;
     currentIndex := currentIndex r; isPlaying := isPlaying r;
     currentTime := v; users := users r |}.

Definition set_users (v : list User) (r : Room) : Room :=
  {| hostId := hostId r; media := media r; queue := queue r;
     currentIndex := currentIndex r; isPlaying := isPlaying r;
     currentTime := currentTime r; users := v |}.

(** ** Outbound events *)

Inductive Event :=
| EvError (msg : string)
| EvUserJoined (name : string)
| EvRoomState (m : JsMedia) (q : list Media) (ci : JsInt) (playing : bool)
              (time : num) (host : string) (names : list string)
| EvRoomCreated (roomCode : string)
| EvMediaUpdated (m : JsMedia) (q : list Media) (ci : JsInt)
| EvSyncPlay (time : num) (timestamp : Z) (offset : Z)
| EvSyncPause (timestamp : Z)
| EvSyncSeek (newTime : num) (timestamp : Z)
| EvNewChat (user message : string) (timestamp : Z)
| EvVoiceOffer (offer fromId : string)
| EvVoiceAnswer (answer fromId : string)
| EvIceCandidate (candidate fromId : string)
| EvUserLeft (id : string).

(** A broadcast operator of the transport: the rooms added by [.to(...)] and
    the rooms excluded. *)
Record Broadcast := { bo_rooms : list string; bo_except : list string }.

(** [io.to(room)]. *)
Definition io_to (room : string) : Broadcast :=
  {| bo_rooms := [room]; bo_except := [] |}.

(** [socket.to(room)]: a broadcast that leaves the sender out. *)
Definition socket_to (sock : Socket) (room : string) : Broadcast :=
  {| bo_rooms := [room]; bo_except := [sock_id sock] |}.

(** Chaining [.to(room)] on a broadcast operator adds the room to the
    target set. *)
Definition bo_to (b : Broadcast) (room : string) : Broadcast :=
  {| bo_rooms := bo_rooms b ++ [room]; bo_except := bo_except b |}.

Inductive Dest :=
| ToSocket (id : string)
| ToRooms (b : Broadcast).

Record Emission := { em_dest : Dest; em_event : Event }.

(** [socket.emit(ev)]: to the connection itself. *)
Definition socket_emit (sock : Socket) (ev : Event) : Emission :=
  {| em_dest := ToSocket (sock_id sock); em_event := ev |}.

(** [<broadcast>.emit(ev)]. *)
Definition bo_emit (b : Broadcast) (ev : Event) : Emission :=
  {| em_dest := ToRooms b; em_event := ev |}.

(** Is the connection in one of the named rooms? *)
Definition in_any (names : list string) (s : Socket) : bool :=
  existsb (λ r, bool_decide (r ∈ sock_rooms s)) names.

(** The connections an emission is delivered to, among the connected
    [sockets]: a broadcast reaches every connection that is in at least one
    target room and in no excluded room. *)
Definition recipients (sockets : list Socket) (e : Emission) : list string :=
  match em_dest e with
  | ToSocket id => [id]
  | ToRooms b =>
      sock_id <$>
        List.filter (λ s, in_any (bo_rooms b) s && negb (in_any (bo_except b) s))
                    sockets
  end.

(** The result of running a handler. *)
Record Outcome := {
  out_sock : Socket;
  out_rooms : gmap string Room;
  out_emits : list Emission
}.

(** A handler that returns before doing anything. *)
Definition dropped (sock : Socket) (rooms : gmap string Room) : Outcome :=
  {| out_sock := sock; out_rooms := rooms; out_emits := [] |}.

(** ** The handlers *)

(** The loop of lines 141-143: candidates are drawn until one is not a key
    of the registry. [codes] are the successive results of
    [generateRoomCode()]; [None] when all of them are taken, that is, when
    the loop is still running after the last of them. *)
Fixpoint freshRoomCode (codes : list string) (rooms : gmap string Room)
  : option string :=
  match codes with
  | [] => None
  | roomCode :: rest =>
      match rooms !! roomCode with
      | Some _ => freshRoomCode rest rooms
      | None => Some roomCode
      end
  end.

(** [join-room], lines 114-136. *)
Definition join_room (sock : Socket) (roomCode userName : string)
    (rooms : gmap string Room) : Outcome :=
  match rooms !! roomCode with
  | None =>
      {| out_sock := sock; out_rooms := rooms;
         out_emits := [socket_emit sock (EvError "Room not found")] |}
  | Some room0 =>
      let sock' := socket_join sock roomCode in
      let room :=
        set_users (users room0 ++
                   [{| user_id := sock_id sock; user_name := userName |}])
                  room0 in
      {| out_sock := sock';
         out_rooms := <[roomCode := room]> rooms;
         out_emits :=
           [ bo_emit (socket_to sock' roomCode) (EvUserJoined userName);
             socket_emit sock'
               (EvRoomState (media room) (queue room) (currentIndex room)
                            (isPlaying room) (currentTime room) (hostId room)
                            (user_name <$> users room)) ] |}
  end.

(** [create-room], lines 139-158. *)
Definition create_room (sock : Socket) (userName : string)
    (codes : list string) (rooms : gmap string Room) : option Outcome :=
  match freshRoomCode codes rooms with
  | None => None
  | Some roomCode =>
      Some
        {| out_sock := socket_join sock roomCode;
           out_rooms :=
             <[roomCode :=
                 {| hostId := sock_id sock;
                    media := JNull;
                    queue := [];
                    currentIndex := Idx 0;
                    isPlaying := false;
                    currentTime := num_of_Z 0;
                    users := [{| user_id := sock_id sock;
                                 user_name := userName |}] |}]> rooms;
           out_emits := [socket_emit sock (EvRoomCreated roomCode)] |}
  end.

(** The two guards every control handler starts with (lines 162-163,
    178-179, 194-195, 204-205, 214-215, 228-229): the room exists, the
    connection has joined it, and the connection is its host; otherwise the
    handler returns. [body] is the rest of the handler. *)
Definition host_only (sock : Socket) (roomCode : string)
    (rooms : gmap string Room) (body : Room → Outcome) : Outcome :=
  match rooms !! roomCode with
  | None => dropped sock rooms
  | Some room =>
      if bool_decide (roomCode ∈ sock_rooms sock)
      then if bool_decide (hostId room = sock_id sock)
           then body room
           else dropped sock rooms
      else dropped sock rooms
  end.

(** [load-media], lines 161-174. The event carries the request's [media]. *)
Definition load_media (sock : Socket) (roomCode : string) (m : Media)
    (addToQueue : bool) (rooms : gmap string Room) : Outcome :=
  host_only sock roomCode rooms (λ room0,
    let room :=
      if addToQueue
      then set_queue (queue room0 ++ [m]) room0
      else set_queue [m] (set_currentIndex (Idx 0) (set_media (JMedia m) room0)) in
    {| out_sock := sock;
       out_rooms := <[roomCode := room]> rooms;
       out_emits :=
         [bo_emit (io_to roomCode)
            (EvMediaUpdated (JMedia m) (queue room) (currentIndex room))] |}).

(** [play], lines 177-191. *)
Definition play (sock : Socket) (roomCode : string) (time : num) (now : Z)
    (rooms : gmap string Room) : Outcome :=
  host_only sock roomCode rooms (λ room0,
    let timestamp := now in
    let room := set_currentTime time (set_isPlaying true room0) in
    {| out_sock := sock;
       out_rooms := <[roomCode := room]> rooms;
       out_emits :=
         [bo_emit (io_to roomCode) (EvSyncPlay time timestamp 0)] |}).

(** [pause], lines 193-201. *)
Definition pause (sock : Socket) (roomCode : string) (now : Z)
    (rooms : gmap string Room) : Outcome :=
  host_only sock roomCode rooms (λ room0,
    let timestamp := now in
    {| out_sock := sock;
       out_rooms := <[roomCode := set_isPlaying false room0]> rooms;
       out_emits := [bo_emit (io_to roomCode) (EvSyncPause timestamp)] |}).

(** [seek], lines 203-211. *)
Definition seek (sock : Socket) (roomCode : string) (newTime : num) (now : Z)
    (rooms : gmap string Room) : Outcome :=
  host_only sock roomCode rooms (λ room0,
    let timestamp := now in
    {| out_sock := sock;
       out_rooms := <[roomCode := set_currentTime newTime room0]> rooms;
       out_emits :=
         [bo_emit (io_to roomCode) (EvSyncSeek newTime timestamp)] |}).

(** Lines 219-224 and 233-238, common to both navigation handlers once
    [currentIndex] has been assigned. *)
Definition show_current (sock : Socket) (roomCode : string) (now : Z)
    (rooms : gmap string Room) (room1 : Room) : Outcome :=
  let room2 := set_media (js_index (queue room1) (currentIndex room1)) room1 in
  let room := set_isPlaying false (set_currentTime (num_of_Z 0) room2) in
  {| out_sock := sock;
     out_rooms := <[roomCode := room]> rooms;
     out_emits :=
       [ bo_emit (io_to roomCode)
           (EvMediaUpdated (media room) (queue room) (currentIndex room));
         bo_emit (io_to roomCode) (EvSyncSeek (num_of_Z 0) now) ] |}.

(** [next-video], lines 213-225. *)
Definition next_video (sock : Socket) (roomCode : string) (now : Z)
    (rooms : gmap string Room) : Outcome :=
  host_only sock roomCode rooms (λ room0,
    let len := Z.of_nat (length (queue room0)) in
    show_current sock roomCode now rooms
      (set_currentIndex (js_rem (js_add (currentIndex room0) 1) len) room0)).

(** [prev-video], lines 227-239. *)
Definition prev_video (sock : Socket) (roomCode : string) (now : Z)
    (rooms : gmap string Room) : Outcome :=
  host_only sock roomCode rooms (λ room0,
    let len := Z.of_nat (length (queue room0)) in
    show_current sock roomCode now rooms
      (set_currentIndex
         (js_rem (js_add (js_add (currentIndex room0) (-1)) len) len) room0)).

(** [send-chat], lines 242-258: the display name is the stored one. *)
Definition send_chat (sock : Socket) (roomCode message : string) (now : Z)
    (rooms : gmap string Room) : Outcome :=
  match rooms !! roomCode with
  | None => dropped sock rooms
  | Some room =>
      if bool_decide (roomCode ∈ sock_rooms sock)
      then match List.find (λ u, bool_decide (user_id u = sock_id sock))
                           (users room) with
           | None => dropped sock rooms
           | Some user =>
               {| out_sock := sock; out_rooms := rooms;
                  out_emits :=
                    [bo_emit (io_to roomCode)
                       (EvNewChat (user_name user) message now)] |}
           end
      else dropped sock rooms
  end.

(** [voice-offer], [voice-answer] and [ice-candidate], lines 261-271: the
    broadcast operator is [socket.to(targetId).to(roomCode)]. *)
Definition relay (sock : Socket) (roomCode targetId : string) (ev : Event)
    (rooms : gmap string Room) : Outcome :=
  {| out_sock := sock; out_rooms := rooms;
     out_emits := [bo_emit (bo_to (socket_to sock targetId) roomCode) ev] |}.

Definition voice_offer (sock : Socket) (roomCode offer targetId : string) :=
  relay sock roomCode targetId (EvVoiceOffer offer (sock_id sock)).

Definition voice_answer (sock : Socket) (roomCode answer targetId : string) :=
  relay sock roomCode targetId (EvVoiceAnswer answer (sock_id sock)).

Definition ice_candidate (sock : Socket) (roomCode candidate targetId : string) :=
  relay sock roomCode targetId (EvIceCandidate candidate (sock_id sock)).

(** The room object after lines 279-283 have run for connection [id]. In
    the promotion branch [users[0]] exists, the list being non-empty. *)
Definition depart (id : string) (room0 : Room) : Room :=
  let room1 := set_users (filter (λ u, user_id u ≠ id) (users room0)) room0 in
  if bool_decide (hostId room1 = id) && (0 <? length (users room1))%nat
  then match users room1 !! 0%nat with
       | Some u => set_hostId (user_id u) room1
       | None => room1
       end
  else room1.

(** One iteration of the loop of lines 276-286. *)
Definition leave_room (sock : Socket)
    (acc : gmap string Room * list Emission) (roomCode : string)
  : gmap string Room * list Emission :=
  match acc.1 !! roomCode with
  | None => acc
  | Some room0 =>
      if bool_decide (roomCode ≠ sock_id sock)
      then
        let room := depart (sock_id sock) room0 in
        (if (length (users room) =? 0)%nat
         then delete roomCode acc.1
         else <[roomCode := room]> acc.1,
         acc.2 ++ [bo_emit (io_to roomCode) (EvUserLeft (sock_id sock))])
      else acc
  end.

(** [disconnect], lines 274-288: the loop runs over [socket.rooms] as the
    handler finds it. *)
Definition disconnect (sock : Socket) (rooms : gmap string Room) : Outcome :=
  let acc := foldl (leave_room sock) (rooms, []) (sock_rooms sock) in
  {| out_sock := sock; out_rooms := acc.1; out_emits := acc.2 |}.

(** ** Requests and their dispatch *)

Inductive Request :=
| JoinRoom (roomCode userName : string)
| CreateRoom (userName : string)
| LoadMedia (roomCode : string) (m : Media) (addToQueue : bool)
| Play (roomCode : string) (time : num)
| Pause (roomCode : string)
| Seek (roomCode : string) (newTime : num)
| NextVideo (roomCode : string)
| PrevVideo (roomCode : string)
| SendChat (roomCode message userName : string)
| VoiceOffer (roomCode offer targetId : string)
| VoiceAnswer (roomCode answer targetId : string)
| IceCandidate (roomCode candidate targetId : string)
| Disconnect.

(** What a handler reads from outside the program while it runs. *)
Record Env := { env_now : Z; env_codes : list string }.

(** The handler registered for each request. Only [create-room] can fail to
    return. *)
Definition handle (sock : Socket) (req : Request) (env : Env)
    (rooms : gmap string Room) : option Outcome :=
  match req with
  | JoinRoom roomCode userName => Some (join_room sock roomCode userName rooms)
  | CreateRoom userName => create_room sock userName (env_codes env) rooms
  | LoadMedia roomCode m addToQueue =>
      Some (load_media sock roomCode m addToQueue rooms)
  | Play roomCode time => Some (play sock roomCode time (env_now env) rooms)
  | Pause roomCode => Some (pause sock roomCode (env_now env) rooms)
  | Seek roomCode newTime =>
      Some (seek sock roomCode newTime (env_now env) rooms)
  | NextVideo roomCode => Some (next_video sock roomCode (env_now env) rooms)
  | PrevVideo roomCode => Some (prev_video sock roomCode (env_now env) rooms)
  | SendChat roomCode message _ =>
      Some (send_chat sock roomCode message (env_now env) rooms)
  | VoiceOffer roomCode offer targetId =>
      Some (voice_offer sock roomCode offer targetId rooms)
  | VoiceAnswer roomCode answer targetId =>
      Some (voice_answer sock roomCode answer targetId rooms)
  | IceCandidate roomCode candidate targetId =>
      Some (ice_candidate sock roomCode candidate targetId rooms)
  | Disconnect => Some (disconnect sock rooms)
  end.

(** The room a control request (the six host-only operations) names. *)
Definition control_target (req : Request) : option string :=
  match req with
  | LoadMedia roomCode _ _ | Play roomCode _ | Pause roomCode
  | Seek roomCode _ | NextVideo roomCode | PrevVideo roomCode => Some roomCode
  | _ => None
  end.

(** ** Runs of the server *)

(** One request as the server receives it: the connection it arrives on,
    with the membership the transport reports for it at that moment, the
    payload, and the environment. The transport owns [socket.rooms] between
    two requests, so a run leaves it unconstrained: what is proved of all
    runs holds whatever the transport reports. *)
Record Step := { st_sock : Socket; st_req : Request; st_env : Env }.

(** The registry after a sequence of requests; [None] if one of them does
    not return. *)
Fixpoint run (trace : list Step) (rooms : gmap string Room)
  : option (gmap string Room) :=
  match trace with
  | [] => Some rooms
  | st :: rest =>
      match handle (st_sock st) (st_req st) (st_env st) rooms with
      | Some out => run rest (out_rooms out)
      | None => None
      end
  end.

(** A join request that would repeat an entry of [users]: the connection is
    already listed in the room it asks to join. *)
Definition rejoins (st : Step) (rooms : gmap string Room) : bool :=
  match st_req st with
  | JoinRoom roomCode _ =>
      match rooms !! roomCode with
      | Some room =>
          bool_decide (sock_id (st_sock st) ∈ user_id <$> users room)
      | None => false
      end
  | _ => false
  end.

(** No request of the run is such a repeated join. *)
Fixpoint no_rejoin (trace : list Step) (rooms : gmap string Room) : bool :=
  match trace with
  | [] => true
  | st :: rest =>
      negb (rejoins st rooms) &&
      match handle (st_sock st) (st_req st) (st_env st) rooms with
      | Some out => no_rejoin rest (out_rooms out)
      | None => true
      end
  end.

(** Navigation commands, and a host issuing a sequence of them on one
    room. *)
Inductive Nav := Next | Prev.

Definition navigate (sock : Socket) (roomCode : string) (now : Z)
    (rooms : gmap string Room) (n : Nav) : gmap string Room :=
  match n with
  | Next => out_rooms (next_video sock roomCode now rooms)
  | Prev => out_rooms (prev_video sock roomCode now rooms)
  end.

Definition navigate_all (sock : Socket) (roomCode : string) (now : Z)
    (navs : list Nav) (rooms : gmap string Room) : gmap string Room :=
  foldl (navigate sock roomCode now) rooms navs.

Definition count_nav (n : Nav) (navs : list Nav) : Z :=
  Z.of_nat (length (List.filter (λ x, match x, n with
                                      | Next, Next | Prev, Prev => true
                                      | _, _ => false
                                      end) navs)).

(** ** The client's [sync-play] callback (lines 6-9) *)

Inductive PlayerCmd :=
| SeekTo (seconds : num) (allowSeekAhead : bool)
| PlayVideo.

Definition on_sync_play (localNow : Z) (time : num) (timestamp : Z)
  : list PlayerCmd :=
  let offset :=
    num_div (num_sub (num_of_Z localNow) (num_of_Z timestamp))
            (num_of_Z 1000) in
  [SeekTo (num_add time offset) true; PlayVideo].

(** The client file registers a callback for [sync-play] only. *)
Definition client_on (localNow : Z) (ev : Event) : list PlayerCmd :=
  match ev with
  | EvSyncPlay time timestamp _ => on_sync_play localNow time timestamp
  | _ => []
  end.

End Rave.

Arguments Room : clear implicits.
Arguments Event : clear implicits.
Arguments Emission : clear implicits.
Arguments Outcome : clear implicits.
Arguments Request : clear implicits.
Arguments Step : clear implicits.
Arguments PlayerCmd : clear implicits.

(** ** Vocabulary of the properties *)

Section Vocabulary.
Context {num : Type} `{!JsNumber num}.

(** The three ways a control request fails its preconditions: no such room,
    the connection has not joined it, the connection is not its host. *)
Definition not_authorised (sock : Socket) (roomCode : string)
    (rooms : gmap string (Room num)) : Prop :=
  rooms !! roomCode = None ∨
  roomCode ∉ sock_rooms sock ∨
  ∃ room, rooms !! roomCode = Some room ∧ hostId room ≠ sock_id sock.

(** What the registry holds for a room once connection [id] has left it:
    nothing if nobody is left, the room after [depart] otherwise. *)
Definition remaining (id : string) (room : Room num) : option (Room num) :=
  let room' := depart id room in
  if (length (users room') =? 0)%nat then None else Some room'.

(** The host of the room is one of its members. *)
Definition host_is_member (room : Room num) : Prop :=
  ∃ u, u ∈ users room ∧ user_id u = hostId room.

(** No connection is listed twice in the room. *)
Definition distinct_members (room : Room num) : Prop :=
  NoDup (user_id <$> users room).

End Vocabulary.

(** ** Vocabulary of the playback state and of the loops *)

Section PlaybackVocabulary.
Context {num : Type} `{!JsNumber num}.

(** The media shown, when there is one, is an entry of the queue. *)
Definition media_in_queue (room : Room num) : Prop :=
  ∀ m, media room = JMedia m → m ∈ queue room.

(** [currentIndex] is an integer: 0 on an empty queue, a position of the
    queue otherwise. *)
Definition index_valid (room : Room num) : Prop :=
  ∃ i, currentIndex room = Idx i ∧ 0 ≤ i ∧
       (i = 0 ∨ i < Z.of_nat (length (queue room))).

(** A navigation request that gets past the guards on a room whose queue is
    empty. *)
Definition navigates_empty (st : Step num) (rooms : gmap string (Room num))
  : bool :=
  match st_req st with
  | NextVideo roomCode | PrevVideo roomCode =>
      match rooms !! roomCode with
      | Some room =>
          bool_decide (roomCode ∈ sock_rooms (st_sock st)) &&
          bool_decide (hostId room = sock_id (st_sock st)) &&
          match queue room with [] => true | _ :: _ => false end
      | None => false
      end
  | _ => false
  end.

(** No request of the run is such a navigation. *)
Fixpoint no_empty_navigation (trace : list (Step num))
    (rooms : gmap string (Room num)) : bool :=
  match trace with
  | [] => true
  | st :: rest =>
      negb (navigates_empty st rooms) &&
      match handle (st_sock st) (st_req st) (st_env st) rooms with
      | Some out => no_empty_navigation rest (out_rooms out)
      | None => true
      end
  end.

(** The rooms the loop of the disconnect handler does something for: the
    names in [socket.rooms] that are keys of the registry and differ from
    the connection's id. *)
Definition rooms_left (sock : Socket) (rooms : gmap string (Room num))
  : list string :=
  filter (λ c, is_Some (rooms !! c) ∧ c ≠ sock_id sock) (sock_rooms sock).

(** The host is the connection of the first entry of [users]. *)
Definition host_is_first (room : Room num) : Prop :=
  ∃ u rest, users room = u :: rest ∧ hostId room = user_id u.

(** Every disconnect of the run is handled on a connection that has already
    been taken out of its rooms, as the transport does (see
    [at_disconnect]). *)
Definition disconnects_after_leaving (trace : list (Step num)) : bool :=
  forallb (λ st, match st_req st with
                 | Disconnect =>
                     match sock_rooms (st_sock st) with
                     | [] => true
                     | _ :: _ => false
                     end
                 | _ => true
                 end) trace.

End PlaybackVocabulary.

(** ** A concrete interpretation and concrete inputs *)

(** Exact rationals, to run the model on examples. *)
#[export] Instance Q_JsNumber : JsNumber QArith_base.Q := {|
  num_of_Z := QArith_base.inject_Z;
  num_add := QArith_base.Qplus;
  num_sub := QArith_base.Qminus;
  num_div := QArith_base.Qdiv
|}.

Module Fixtures.

Abbreviation Q := QArith_base.Q.

Definition alice : Socket :=
  {| sock_id := "alice-sid"; sock_rooms := ["alice-sid"] |}.
Definition bob : Socket :=
  {| sock_id := "bob-sid"; sock_rooms := ["bob-sid"] |}.
Definition carol : Socket :=
  {| sock_id := "carol-sid"; sock_rooms := ["carol-sid"] |}.

Definition code : string := "ABC123".

Definition env0 : Env := {| env_now := 1700000000000; env_codes := [code] |}.

Definition mk_step (s : Socket) (r : Request Q) : Step Q :=
  {| st_sock := s; st_req := r; st_env := env0 |}.

Definition xyz : Media := {| media_type := "youtube"; media_id := "xyz" |}.
Definition uvw : Media := {| media_type := "youtube"; media_id := "uvw" |}.

(** The connections once they are in room [code]. *)
Definition alice_in : Socket := socket_join alice code.
Definition bob_in : Socket := socket_join bob code.
Definition carol_in : Socket := socket_join carol code.

(** The room right after [alice] has created it. *)
Definition fresh_room : Room Q :=
  {| hostId := "alice-sid"; media := JNull; queue := []; currentIndex := Idx 0;
     isPlaying := false; currentTime := QArith_base.inject_Z 0;
     users := [{| user_id := "alice-sid"; user_name := "Alice" |}] |}.

(** Alice creates the room. *)
Definition created : gmap string (Room Q) := {[ code := fresh_room ]}.

(** Then Bob and Carol join it. *)
Definition joined : gmap string (Room Q) :=
  out_rooms (join_room carol code "Carol"
               (out_rooms (join_room bob code "Bob" created))).

(** Then Alice loads [xyz], starting a new queue. *)
Definition loaded : gmap string (Room Q) :=
  out_rooms (load_media alice_in code xyz false joined).

(** Then Alice disconnects. *)
Definition alice_left : gmap string (Room Q) :=
  out_rooms (disconnect alice_in joined).

(** The room after that: Bob, the earliest of the two who stayed, is the
    host. *)
Definition bob_room : Room Q :=
  {| hostId := "bob-sid"; media := JNull; queue := []; currentIndex := Idx 0;
     isPlaying := false; currentTime := QArith_base.inject_Z 0;
     users := [{| user_id := "bob-sid"; user_name := "Bob" |};
               {| user_id := "carol-sid"; user_name := "Carol" |}] |}.

(** The requests that lead there. *)
Definition session : list (Step Q) :=
  [ mk_step alice (CreateRoom "Alice");
    mk_step bob (JoinRoom code "Bob");
    mk_step carol (JoinRoom code "Carol");
    mk_step alice_in Disconnect ].

(** Alice creates a room and then asks to join it. *)
Definition join_own_room : list (Step Q) :=
  [ mk_step alice (CreateRoom "Alice");
    mk_step alice_in (JoinRoom code "Alice") ].

(** The room while all three are in it. *)
Definition full_room : Room Q :=
  {| hostId := "alice-sid"; media := JNull; queue := []; currentIndex := Idx 0;
     isPlaying := false; currentTime := QArith_base.inject_Z 0;
     users := [{| user_id := "alice-sid"; user_name := "Alice" |};
               {| user_id := "bob-sid"; user_name := "Bob" |};
               {| user_id := "carol-sid"; user_name := "Carol" |}] |}.

Definition rst : Media := {| media_type := "youtube"; media_id := "rst" |}.

(** A room with three queued items, showing the last one. *)
Definition room3 : Room Q :=
  {| hostId := "alice-sid"; media := JMedia rst; queue := [xyz; uvw; rst];
     currentIndex := Idx 2; isPlaying := true;
     currentTime := QArith_base.inject_Z 42;
     users := [{| user_id := "alice-sid"; user_name := "Alice" |};
               {| user_id := "bob-sid"; user_name := "Bob" |}] |}.

Definition queued : gmap string (Room Q) := {[ code := room3 ]}.

(** Alice's play request at 5 seconds, in the room that shows [xyz]. *)
Definition playing : gmap string (Room Q) :=
  out_rooms (play alice_in code (QArith_base.inject_Z 5) 1700000000000 loaded).

(** A second room, created by Bob under another code. *)
Definition code2 : string := "XYZ789".

Definition two_rooms : gmap string (Room Q) :=
  <[code2 := {| hostId := "bob-sid"; media := JNull; queue := [];
                currentIndex := Idx 0; isPlaying := false;
                currentTime := QArith_base.inject_Z 0;
                users := [{| user_id := "bob-sid"; user_name := "Bob" |}] |}]>
    joined.

(** Bob once he is in both rooms. *)
Definition bob_in_both : Socket := socket_join bob_in code2.

(** Alice's connection when its [disconnect] listener runs. *)
Definition alice_gone : Socket := at_disconnect alice_in.

(** From the room Alice created: Bob joins, Alice's connection closes,
    Carol joins. *)
Definition closing_session : list (Step Q) :=
  [ mk_step bob (JoinRoom code "Bob");
    mk_step alice_gone Disconnect;
    mk_step carol (JoinRoom code "Carol") ].

(** A session with media: create, join, load, add to the queue, next. *)
Definition media_session : list (Step Q) :=
  [ mk_step alice (CreateRoom "Alice");
    mk_step bob (JoinRoom code "Bob");
    mk_step alice_in (LoadMedia code xyz false);
    mk_step alice_in (LoadMedia code uvw true);
    mk_step alice_in (NextVideo code) ].

End Fixtures.

(** * Properties *)

Section Properties.
Context {num : Type} `{!JsNumber num}.
Implicit Types (sock : Socket) (rooms : gmap string (Room num)).
Implicit Types (room : Room num) (roomCode : string).

(** ** The host guard *)

Lemma host_only_pass sock roomCode rooms room (body : Room num → Outcome num) :
  rooms !! roomCode = Some room →
  roomCode ∈ sock_rooms sock →
  hostId room = sock_id sock →
  host_only sock roomCode rooms body = body room.
Proof.
  intros Hroom Hin Hhost. unfold host_only. rewrite Hroom.
  rewrite !bool_decide_eq_true_2; done.
Qed.

Lemma host_only_drop sock roomCode rooms (body : Room num → Outcome num) :
  not_authorised sock roomCode rooms →
  host_only sock roomCode rooms body = dropped sock rooms.
Proof.
  unfold host_only. intros [Hnone | [Hout | (room & Hroom & Hne)]].
  - by rewrite Hnone.
  - destruct (rooms !! roomCode); [|done].
    by rewrite bool_decide_eq_false_2.
  - rewrite Hroom. case_bool_decide; [|done].
    by rewrite bool_decide_eq_false_2.
Qed.

(** C4. A control request (load-media, play, pause, seek, next-video,
    prev-video) whose preconditions fail, in particular one sent by a
    connection that is not the room's host, returns the registry it was
    given, so every room is equal to what it was before, and emits
    nothing. *)
Theorem non_host_control_is_dropped sock (req : Request num) env rooms roomCode :
  control_target req = Some roomCode →
  not_authorised sock roomCode rooms →
  handle sock req env rooms = Some (dropped sock rooms).
Proof.
  intros Htarget Hfail.
  destruct req; simpl in Htarget; try discriminate;
    injection Htarget as ->; simpl; f_equal;
    by apply host_only_drop.
Qed.

(** ** Queue navigation *)

Lemma count_nav_cons (n x : Nav) (navs : list Nav) :
  count_nav n (x :: navs) =
  (match x, n with Next, Next | Prev, Prev => 1 | _, _ => 0 end)
  + count_nav n navs.
Proof.
  unfold count_nav. simpl. destruct x, n; simpl; lia.
Qed.

Lemma next_index (i n : Z) :
  0 ≤ i → 0 < n → js_rem (js_add (Idx i) 1) n = Idx ((i + 1) mod n).
Proof.
  intros Hi Hn. simpl. destruct (Z.eqb_spec n 0) as [|_]; [lia|].
  by rewrite Z.rem_mod_nonneg by lia.
Qed.

Lemma prev_index (i n : Z) :
  0 ≤ i → 0 < n →
  js_rem (js_add (js_add (Idx i) (-1)) n) n = Idx ((i - 1) mod n).
Proof.
  intros Hi Hn. simpl. destruct (Z.eqb_spec n 0) as [|_]; [lia|].
  rewrite Z.rem_mod_nonneg by lia. f_equal.
  replace (i + -1 + n) with (i - 1 + 1 * n) by lia.
  by rewrite Z.mod_add by lia.
Qed.

(** One navigation step by the host on a non-empty queue. *)
Lemma navigate_step sock roomCode now rooms room (n : Nav) (i : Z) :
  rooms !! roomCode = Some room →
  roomCode ∈ sock_rooms sock →
  hostId room = sock_id sock →
  currentIndex room = Idx i →
  0 ≤ i →
  0 < Z.of_nat (length (queue room)) →
  ∃ room',
    navigate sock roomCode now rooms n !! roomCode = Some room' ∧
    hostId room' = hostId room ∧
    queue room' = queue room ∧
    currentIndex room' =
      Idx ((i + match n with Next => 1 | Prev => -1 end)
           mod Z.of_nat (length (queue room))).
Proof.
  intros Hroom Hin Hhost Hidx Hi Hlen.
  destruct n; unfold navigate, next_video, prev_video;
    rewrite (host_only_pass _ _ _ room) by done;
    unfold show_current; simpl; rewrite lookup_insert_eq;
    eexists; (split; [reflexivity|]); simpl; rewrite Hidx;
    (split; [done|]); (split; [done|]).
  - by apply next_index.
  - by rewrite prev_index.
Qed.

(** C2. The host of a room whose queue has N > 0 entries and whose
    [currentIndex] is a valid position i issues any sequence of next-video and
    prev-video requests: afterwards the queue is the same, [currentIndex] is
    (i + #next - #prev) mod N, and that lies in [0, N). Every prefix of a
    sequence being a sequence, this holds after each call. *)
Theorem navigation_is_modular sock roomCode now (navs : list Nav) rooms room
    (i : Z) :
  rooms !! roomCode = Some room →
  roomCode ∈ sock_rooms sock →
  hostId room = sock_id sock →
  currentIndex room = Idx i →
  0 ≤ i < Z.of_nat (length (queue room)) →
  ∃ room' j,
    navigate_all sock roomCode now navs rooms !! roomCode = Some room' ∧
    queue room' = queue room ∧
    currentIndex room' = Idx j ∧
    j = (i + count_nav Next navs - count_nav Prev navs)
        mod Z.of_nat (length (queue room)) ∧
    0 ≤ j < Z.of_nat (length (queue room)).
Proof.
  unfold navigate_all.
  revert rooms room i.
  induction navs as [|n navs IH]; intros rooms room i Hroom Hin Hhost Hidx Hi.
  - exists room, i. simpl. repeat split; try done; try lia.
    unfold count_nav; simpl. rewrite Z.sub_0_r, Z.add_0_r.
    by rewrite Z.mod_small.
  - destruct (navigate_step sock roomCode now rooms room n i)
      as (room1 & Hroom1 & Hhost1 & Hq1 & Hidx1); try done; try lia.
    set (N := Z.of_nat (length (queue room))) in *.
    assert (HN : 0 < N) by lia.
    edestruct (IH (navigate sock roomCode now rooms n) room1) as
      (room' & j & Hroom' & Hq' & Hidx' & Hj & Hrange);
      [exact Hroom1 | exact Hin | congruence | exact Hidx1
      | rewrite Hq1; apply Z.mod_pos_bound; exact HN |].
    exists room', j. simpl. split; [exact Hroom'|].
    split; [congruence|]. split; [exact Hidx'|].
    rewrite Hq1 in Hj, Hrange. fold N in Hj, Hrange.
    split; [|exact Hrange].
    rewrite Hj, !count_nav_cons.
    rewrite <- Z.add_sub_assoc, Zplus_mod_idemp_l, Z.add_sub_assoc.
    f_equal. destruct n; lia.
Qed.

(** ** Leaving a room *)

Lemma depart_users id room :
  users (depart id room) = filter (λ u, user_id u ≠ id) (users room).
Proof.
  unfold depart. simpl.
  destruct (bool_decide (hostId room = id) && _); [|done].
  by destruct (filter _ (users room)).
Qed.

Lemma depart_hostId id room :
  hostId (depart id room) =
  match filter (λ u, user_id u ≠ id) (users room) with
  | u :: _ => if bool_decide (hostId room = id) then user_id u else hostId room
  | [] => hostId room
  end.
Proof.
  unfold depart. simpl.
  destruct (filter _ (users room)) as [|u rest]; simpl.
  - by rewrite andb_false_r.
  - rewrite andb_true_r. by case_bool_decide.
Qed.

(** A room the connection is not in is left as it is. *)
Lemma depart_absent id room :
  (∀ u, u ∈ users room → user_id u ≠ id) →
  (users room ≠ [] → hostId room ≠ id) →
  depart id room = room.
Proof.
  intros Hall Hhost. unfold depart.
  assert (Hf : filter (λ u, user_id u ≠ id) (users room) = users room).
  { clear Hhost. induction (users room) as [|u l IH]; [done|].
    rewrite filter_cons_True by (apply Hall; left).
    f_equal. apply IH. intros v Hv. apply Hall. by right. }
  rewrite Hf. simpl.
  destruct room as [h m q ci p t us]; simpl in *.
  destruct us as [|u us]; simpl.
  - by rewrite andb_false_r.
  - rewrite bool_decide_eq_false_2; [done|]. by apply Hhost.
Qed.

(** Leaving twice is leaving once. *)
Lemma depart_idem id room : depart id (depart id room) = depart id room.
Proof.
  apply depart_absent.
  - intros u. rewrite depart_users, list_elem_of_filter. tauto.
  - rewrite depart_users, depart_hostId. intros Hne.
    destruct (filter _ (users room)) as [|u rest] eqn:Hf; [done|].
    case_bool_decide; [|done].
    assert (Hu : u ∈ filter (λ u, user_id u ≠ id) (users room))
      by (rewrite Hf; left).
    apply list_elem_of_filter in Hu. tauto.
Qed.

Lemma remaining_idem id room room' :
  remaining id room = Some room' → remaining id room' = Some room'.
Proof.
  unfold remaining.
  destruct (length (users (depart id room)) =? 0)%nat eqn:Hlen; [done|].
  intros [= <-]. by rewrite depart_idem, Hlen.
Qed.

(** The effect of one iteration of the loop on each key of the registry. *)
Lemma leave_room_lookup sock (acc : gmap string (Room num) * list (Emission num))
    (roomCode c : string) :
  (leave_room sock acc roomCode).1 !! c =
  if bool_decide (c = roomCode ∧ c ≠ sock_id sock)
  then acc.1 !! c ≫= remaining (sock_id sock)
  else acc.1 !! c.
Proof.
  unfold leave_room.
  destruct (acc.1 !! roomCode) as [room0|] eqn:Hroom.
  - case_bool_decide as Hne; simpl.
    + case_bool_decide as Hc.
      * destruct Hc as [-> _]. rewrite Hroom. simpl. unfold remaining.
        destruct (length _ =? 0)%nat.
        -- apply lookup_delete_eq.
        -- apply lookup_insert_eq.
      * assert (roomCode ≠ c) by (intros ->; tauto).
        destruct (length _ =? 0)%nat.
        -- by apply lookup_delete_ne.
        -- by apply lookup_insert_ne.
    + case_bool_decide as Hc; [|done]. destruct Hc as [-> ?]. done.
  - case_bool_decide as Hc; [|done]. destruct Hc as [-> _].
    by rewrite Hroom.
Qed.

(** The effect of the whole loop on each key. *)
Lemma leave_rooms_lookup sock (codes : list string)
    (acc : gmap string (Room num) * list (Emission num)) (c : string) :
  (foldl (leave_room sock) acc codes).1 !! c =
  if bool_decide (c ∈ codes ∧ c ≠ sock_id sock)
  then acc.1 !! c ≫= remaining (sock_id sock)
  else acc.1 !! c.
Proof.
  revert acc. induction codes as [|roomCode codes IH]; intros acc;
    cbn [foldl].
  - rewrite bool_decide_eq_false_2; [done|]. rewrite elem_of_nil. tauto.
  - rewrite IH, leave_room_lookup.
    destruct (decide (c ≠ sock_id sock)) as [Hne|Heq].
    + destruct (decide (c = roomCode)) as [->|Hc].
      * rewrite (bool_decide_eq_true_2 (roomCode = roomCode ∧ _)) by done.
        rewrite (bool_decide_eq_true_2 (roomCode ∈ roomCode :: codes ∧ _))
          by (split; [left|done]).
        case_bool_decide; [|done].
        destruct (acc.1 !! roomCode) as [room|]; [simpl|done].
        destruct (remaining (sock_id sock) room) eqn:Hrem; [simpl|done].
        by apply remaining_idem in Hrem.
      * rewrite (bool_decide_eq_false_2 (c = roomCode ∧ _)) by tauto.
        rewrite (bool_decide_ext (c ∈ roomCode :: codes ∧ c ≠ sock_id sock)
                   (c ∈ codes ∧ c ≠ sock_id sock)); [done|].
        rewrite elem_of_cons. tauto.
    + rewrite !bool_decide_eq_false_2; tauto.
Qed.

Lemma disconnect_lookup sock rooms (c : string) :
  out_rooms (disconnect sock rooms) !! c =
  if bool_decide (c ∈ sock_rooms sock ∧ c ≠ sock_id sock)
  then rooms !! c ≫= remaining (sock_id sock)
  else rooms !! c.
Proof. unfold disconnect. simpl. apply leave_rooms_lookup. Qed.

(** ** Membership along a run *)

(** How the host and the member list of a room of the new registry relate
    to the old registry, for every request: unchanged; extended by a join;
    created; or what is left after a disconnect. *)
Lemma handle_members sock (req : Request num) env rooms out (c : string) room' :
  handle sock req env rooms = Some out →
  out_rooms out !! c = Some room' →
  (∃ room, rooms !! c = Some room ∧
           hostId room' = hostId room ∧ users room' = users room) ∨
  (∃ room userName,
      req = JoinRoom c userName ∧ rooms !! c = Some room ∧
      hostId room' = hostId room ∧
      users room' = users room ++
                    [{| user_id := sock_id sock; user_name := userName |}]) ∨
  (∃ userName,
      req = CreateRoom userName ∧ hostId room' = sock_id sock ∧
      users room' = [{| user_id := sock_id sock; user_name := userName |}]) ∨
  (∃ room, req = Disconnect ∧ rooms !! c = Some room ∧
           remaining (sock_id sock) room = Some room').
Proof.
  intros Hhandle Hlook.
  assert (Hsame : rooms !! c = Some room' →
                  ∃ room, rooms !! c = Some room ∧
                          hostId room' = hostId room ∧ users room' = users room)
    by (intros ?; by exists room').
  destruct req; simpl in Hhandle;
    try (injection Hhandle as <-);
    try (unfold load_media, play, pause, seek, next_video, prev_video,
           show_current, host_only in Hlook;
         destruct (rooms !! roomCode) as [room0|] eqn:Hroom0;
         [|left; by apply Hsame];
         repeat (case_bool_decide; [|left; by apply Hsame]);
         simpl in Hlook;
         destruct (decide (c = roomCode)) as [->|Hc];
         [ rewrite lookup_insert_eq in Hlook; injection Hlook as <-;
           left; exists room0; split; [done|];
           try destruct addToQueue; done
         | rewrite lookup_insert_ne in Hlook by done;
           left; by apply Hsame ]).
  - (* join-room *)
    unfold join_room in Hlook.
    destruct (rooms !! roomCode) as [room0|] eqn:Hroom0;
      [|left; by apply Hsame].
    simpl in Hlook. destruct (decide (c = roomCode)) as [->|Hc].
    + rewrite lookup_insert_eq in Hlook. injection Hlook as <-.
      right; left. by exists room0, userName.
    + rewrite lookup_insert_ne in Hlook by done. left. by apply Hsame.
  - (* create-room *)
    unfold create_room in Hhandle.
    destruct (freshRoomCode (env_codes env) rooms) as [roomCode|];
      [|discriminate].
    injection Hhandle as <-. simpl in Hlook.
    destruct (decide (c = roomCode)) as [->|Hc].
    + rewrite lookup_insert_eq in Hlook. injection Hlook as <-.
      right; right; left. by exists userName.
    + rewrite lookup_insert_ne in Hlook by done. left. by apply Hsame.
  - (* send-chat *)
    left. apply Hsame. unfold send_chat in Hlook.
    destruct (rooms !! roomCode); [|done].
    case_bool_decide; [|done]. by destruct (List.find _ _).
  - left. by apply Hsame.
  - left. by apply Hsame.
  - left. by apply Hsame.
  - (* disconnect *)
    rewrite disconnect_lookup in Hlook.
    case_bool_decide; [|left; by apply Hsame].
    destruct (rooms !! c) as [room|] eqn:Hroom; [|done].
    right; right; right. by exists room.
Qed.

Lemma depart_host_is_member id room room' :
  host_is_member room →
  remaining id room = Some room' →
  host_is_member room'.
Proof.
  intros (v & Hv & Hhost). unfold remaining.
  destruct (length (users (depart id room)) =? 0)%nat eqn:Hlen; [done|].
  intros [= <-]. unfold host_is_member.
  rewrite depart_users, depart_hostId in *.
  destruct (filter _ (users room)) as [|u rest] eqn:Hf; [done|].
  case_bool_decide as Hid.
  - exists u. split; [left|done].
  - exists v. split; [|done]. rewrite <- Hf.
    apply list_elem_of_filter. split; [congruence|done].
Qed.

Lemma handle_host_is_member sock (req : Request num) env rooms out :
  (∀ c room, rooms !! c = Some room → host_is_member room) →
  handle sock req env rooms = Some out →
  ∀ c room, out_rooms out !! c = Some room → host_is_member room.
Proof.
  intros Hinv Hhandle c room' Hlook.
  destruct (handle_members _ _ _ _ _ _ _ Hhandle Hlook)
    as [(room & Hroom & Hh & Hu)
       |[(room & userName & _ & Hroom & Hh & Hu)
        |[(userName & _ & Hh & Hu)
         |(room & _ & Hroom & Hrem)]]].
  - destruct (Hinv _ _ Hroom) as (v & Hv & Hvh).
    exists v. rewrite Hh, Hu. done.
  - destruct (Hinv _ _ Hroom) as (v & Hv & Hvh).
    exists v. rewrite Hh, Hu. split; [|done].
    apply elem_of_app. by left.
  - eexists. rewrite Hh, Hu. split; [left|done].
  - eapply depart_host_is_member; [|exact Hrem]. by eapply Hinv.
Qed.

Lemma run_host_is_member (trace : list (Step num)) rooms rooms' :
  (∀ c room, rooms !! c = Some room → host_is_member room) →
  run trace rooms = Some rooms' →
  ∀ c room, rooms' !! c = Some room → host_is_member room.
Proof.
  revert rooms. induction trace as [|st trace IH]; intros rooms Hinv; simpl.
  - by intros [= <-].
  - destruct (handle _ _ _ rooms) as [out|] eqn:Hhandle; [|done].
    apply IH. by eapply handle_host_is_member.
Qed.

(** C1. Starting from the empty registry and after any sequence of requests
    (create-room, join-room, disconnect and all the others, from any
    connections), every room the registry holds has a host that is one of
    the entries of its [users] list. *)
Theorem host_always_member (trace : list (Step num)) rooms roomCode room :
  run trace ∅ = Some rooms →
  rooms !! roomCode = Some room →
  host_is_member room.
Proof.
  intros Hrun. eapply run_host_is_member; [|exact Hrun].
  intros c r. by rewrite lookup_empty.
Qed.

Lemma filter_distinct_ids id (l : list User) :
  NoDup (user_id <$> l) →
  NoDup (user_id <$> filter (λ u, user_id u ≠ id) l).
Proof.
  induction l as [|u l IH]; [done|].
  rewrite fmap_cons, NoDup_cons. intros [Hu Hl].
  rewrite filter_cons. case_decide; [|by apply IH].
  rewrite fmap_cons, NoDup_cons. split; [|by apply IH].
  rewrite list_elem_of_fmap in *. intros (v & Hv & Hin).
  apply Hu. exists v. split; [done|].
  apply list_elem_of_filter in Hin. tauto.
Qed.

Lemma handle_distinct_members sock (req : Request num) env rooms out :
  rejoins {| st_sock := sock; st_req := req; st_env := env |} rooms = false →
  (∀ c room, rooms !! c = Some room → distinct_members room) →
  handle sock req env rooms = Some out →
  ∀ c room, out_rooms out !! c = Some room → distinct_members room.
Proof.
  intros Hfresh Hinv Hhandle c room' Hlook. unfold distinct_members.
  destruct (handle_members _ _ _ _ _ _ _ Hhandle Hlook)
    as [(room & Hroom & Hh & Hu)
       |[(room & userName & -> & Hroom & Hh & Hu)
        |[(userName & _ & Hh & Hu)
         |(room & _ & Hroom & Hrem)]]].
  - rewrite Hu. by eapply Hinv.
  - rewrite Hu, fmap_app. apply NoDup_app.
    split; [by eapply Hinv|]. split; [|apply NoDup_singleton].
    intros id Hid. simpl. rewrite list_elem_of_singleton. intros ->.
    unfold rejoins in Hfresh. simpl in Hfresh. rewrite Hroom in Hfresh.
    by apply bool_decide_eq_false_1 in Hfresh.
  - rewrite Hu. apply NoDup_singleton.
  - unfold remaining in Hrem.
    destruct (length _ =? 0)%nat; [done|]. injection Hrem as <-.
    rewrite depart_users. apply filter_distinct_ids. by eapply Hinv.
Qed.

Lemma run_distinct_members (trace : list (Step num)) rooms rooms' :
  no_rejoin trace rooms = true →
  (∀ c room, rooms !! c = Some room → distinct_members room) →
  run trace rooms = Some rooms' →
  ∀ c room, rooms' !! c = Some room → distinct_members room.
Proof.
  revert rooms. induction trace as [|st trace IH]; intros rooms Hok Hinv; simpl.
  - by intros [= <-].
  - simpl in Hok. apply andb_true_iff in Hok as [Hfresh Hok].
    apply negb_true_iff in Hfresh.
    destruct (handle _ _ _ rooms) as [out|] eqn:Hhandle; [|done].
    apply IH; [exact Hok|].
    eapply handle_distinct_members; [|exact Hinv|exact Hhandle].
    by destruct st.
Qed.

(** C8, as amended. Starting from the empty registry, after any sequence of
    requests in which no join-room request comes from a connection that is
    already listed in the room it names, no room of the registry lists a
    connection id twice. *)
Theorem members_distinct_without_rejoin (trace : list (Step num)) rooms
    roomCode room :
  no_rejoin trace ∅ = true →
  run trace ∅ = Some rooms →
  rooms !! roomCode = Some room →
  distinct_members room.
Proof.
  intros Hok Hrun. eapply run_distinct_members; [exact Hok| |exact Hrun].
  intros c r. by rewrite lookup_empty.
Qed.

(** ** Events and who receives them *)

(** A broadcast [io.to(roomCode)] reaches every connection in the room. *)
Lemma io_to_recipients (sockets : list Socket) roomCode (ev : Event num) s :
  s ∈ sockets →
  roomCode ∈ sock_rooms s →
  sock_id s ∈ recipients sockets (bo_emit (io_to roomCode) ev).
Proof.
  intros Hs Hin. unfold recipients. simpl.
  apply list_elem_of_fmap_2, list_elem_of_In, filter_In.
  split; [by apply list_elem_of_In|].
  unfold in_any. simpl. by rewrite bool_decide_eq_true_2.
Qed.

(** The broadcast of the relay handlers,
    [socket.to(targetId).to(roomCode)], reaches every connection other than
    the sender that is in the target's room or in the room [roomCode]. *)
Lemma relay_recipients (sockets : list Socket) sock roomCode
    (targetId : string) (ev : Event num) rooms s :
  s ∈ sockets →
  targetId ∈ sock_rooms s ∨ roomCode ∈ sock_rooms s →
  sock_id sock ∉ sock_rooms s →
  Forall (λ e, sock_id s ∈ recipients sockets e)
         (out_emits (relay sock roomCode targetId ev rooms)).
Proof.
  intros Hs Hin Hout. apply Forall_singleton. unfold recipients. simpl.
  apply list_elem_of_fmap_2, list_elem_of_In, filter_In.
  split; [by apply list_elem_of_In|].
  unfold in_any. simpl. rewrite (bool_decide_eq_false_2 _ Hout). simpl.
  rewrite andb_true_r, orb_false_r. apply orb_true_iff.
  destruct Hin as [Hin|Hin]; [left|right]; by apply bool_decide_eq_true_2.
Qed.

(** On an empty queue the host's navigation requests are carried out, and
    the remainder by the length zero leaves [NaN] in [currentIndex]. *)
Lemma navigate_empty_queue sock roomCode now rooms room (n : Nav) :
  rooms !! roomCode = Some room →
  roomCode ∈ sock_rooms sock →
  hostId room = sock_id sock →
  queue room = [] →
  ∃ room',
    navigate sock roomCode now rooms n !! roomCode = Some room' ∧
    currentIndex room' = NaN ∧
    media room' = JUndefined.
Proof.
  intros Hroom Hin Hhost Hq.
  destruct n; unfold navigate, next_video, prev_video;
    rewrite (host_only_pass _ _ _ room) by done;
    unfold show_current; simpl; rewrite lookup_insert_eq;
    eexists; (split; [reflexivity|]); simpl; rewrite Hq; simpl;
    by destruct (currentIndex room).
Qed.

(** What the client does with any sync-play event. *)
Lemma on_sync_play_formula (localNow : Z) (time : num) (timestamp offset : Z) :
  client_on localNow (EvSyncPlay time timestamp offset) =
  [ SeekTo (num_add time
              (num_div (num_sub (num_of_Z localNow) (num_of_Z timestamp))
                       (num_of_Z 1000)))
           true;
    PlayVideo ].
Proof. reflexivity. Qed.

(** What load-media does for the host when [addToQueue] is set: the queue
    grows at the end, [media] and [currentIndex] stay, and the event sent to
    the room carries the queue and index of the room and the [media] of the
    request. *)
Lemma load_media_add_to_queue sock roomCode (m : Media) rooms room :
  rooms !! roomCode = Some room →
  roomCode ∈ sock_rooms sock →
  hostId room = sock_id sock →
  load_media sock roomCode m true rooms =
  {| out_sock := sock;
     out_rooms := <[roomCode := set_queue (queue room ++ [m]) room]> rooms;
     out_emits :=
       [bo_emit (io_to roomCode)
          (EvMediaUpdated (JMedia m) (queue room ++ [m]) (currentIndex room))] |}.
Proof.
  intros Hroom Hin Hhost. unfold load_media.
  by rewrite (host_only_pass _ _ _ room).
Qed.

(** C10. The host's play request with position [time], stamped [now] by
    the server, produces one sync-play event carrying that pair, broadcast
    to the room, so every connection in the room receives it; a client that
    handles it when its own clock reads [localNow] seeks to
    [time + (localNow - now) / 1000] and starts playing. The formula and the
    pair are the same for all receivers. *)
Theorem sync_play_target sock roomCode (time : num) (now : Z) rooms room :
  rooms !! roomCode = Some room →
  roomCode ∈ sock_rooms sock →
  hostId room = sock_id sock →
  ∃ ev,
    out_emits (play sock roomCode time now rooms) =
      [bo_emit (io_to roomCode) ev] ∧
    ev = EvSyncPlay time now 0 ∧
    (∀ sockets s, s ∈ sockets → roomCode ∈ sock_rooms s →
       sock_id s ∈ recipients sockets (bo_emit (io_to roomCode) ev)) ∧
    ∀ localNow : Z,
      client_on localNow ev =
      [ SeekTo (num_add time
                  (num_div (num_sub (num_of_Z localNow) (num_of_Z now))
                           (num_of_Z 1000)))
               true;
        PlayVideo ].
Proof.
  intros Hroom Hin Hhost. exists (EvSyncPlay time now 0).
  split; [|split; [done|split]].
  - unfold play. by rewrite (host_only_pass _ _ _ room).
  - intros sockets s. apply io_to_recipients.
  - intros localNow. apply on_sync_play_formula.
Qed.

End Properties.

(** * Further properties of the handlers *)

Section Further.
Context {num : Type} `{!JsNumber num}.
Implicit Types (sock : Socket) (rooms : gmap string (Room num)).
Implicit Types (room : Room num) (roomCode : string).

(** ** Creating a room *)

Lemma freshRoomCode_Some (codes : list string) rooms roomCode :
  freshRoomCode codes rooms = Some roomCode →
  ∃ taken rest,
    codes = taken ++ roomCode :: rest ∧
    (∀ c, c ∈ taken → is_Some (rooms !! c)) ∧
    rooms !! roomCode = None.
Proof.
  induction codes as [|c codes IH]; simpl; [done|].
  destruct (rooms !! c) as [room|] eqn:Hc.
  - intros Hfresh. destruct (IH Hfresh) as (taken & rest & -> & Htaken & Hnew).
    exists (c :: taken), rest. split; [done|]. split; [|done].
    intros c' [->|Hin]%elem_of_cons; [by rewrite Hc|by apply Htaken].
  - intros [= <-]. exists [], codes. split; [done|]. split; [|done].
    intros c' Hin. by apply elem_of_nil in Hin.
Qed.

Lemma freshRoomCode_None (codes : list string) rooms :
  freshRoomCode codes rooms = None ↔ ∀ c, c ∈ codes → is_Some (rooms !! c).
Proof.
  induction codes as [|c codes IH]; simpl.
  - split; [|done]. intros _ c Hin. by apply elem_of_nil in Hin.
  - destruct (rooms !! c) as [room|] eqn:Hc.
    + rewrite IH. split.
      * intros Hall c' [->|Hin]%elem_of_cons; [by rewrite Hc|by apply Hall].
      * intros Hall c' Hin. apply Hall. by right.
    + split; [done|]. intros Hall.
      destruct (Hall c) as [room Hroom]; [left|]. congruence.
Qed.

Lemma socket_join_elem sock roomCode :
  roomCode ∈ sock_rooms (socket_join sock roomCode).
Proof.
  unfold socket_join. simpl. case_bool_decide; [done|].
  apply elem_of_app. right. left.
Qed.

(** X1. When create-room returns, the code it chose is the first candidate
    that was not a key of the registry; the registry gains exactly that key,
    bound to a room whose host and only member is the caller, with an empty
    queue; every other key keeps its room; the caller has joined the new
    room and is the only one told its code. *)
Theorem create_room_fresh sock (userName : string) (codes : list string)
    rooms (out : Outcome num) :
  create_room sock userName codes rooms = Some out →
  ∃ taken roomCode rest,
    codes = taken ++ roomCode :: rest ∧
    (∀ c, c ∈ taken → is_Some (rooms !! c)) ∧
    rooms !! roomCode = None ∧
    out_rooms out !! roomCode =
      Some {| hostId := sock_id sock; media := JNull; queue := [];
              currentIndex := Idx 0; isPlaying := false;
              currentTime := num_of_Z 0;
              users := [{| user_id := sock_id sock;
                           user_name := userName |}] |} ∧
    (∀ c, c ≠ roomCode → out_rooms out !! c = rooms !! c) ∧
    size (out_rooms out) = S (size rooms) ∧
    roomCode ∈ sock_rooms (out_sock out) ∧
    out_emits out = [socket_emit sock (EvRoomCreated roomCode)].
Proof.
  unfold create_room.
  destruct (freshRoomCode codes rooms) as [roomCode|] eqn:Hfresh; [|done].
  intros [= <-]. simpl.
  destruct (freshRoomCode_Some _ _ _ Hfresh) as (taken & rest & Hc & Ht & Hn).
  exists taken, roomCode, rest. repeat split; try done.
  - apply lookup_insert_eq.
  - intros c Hne. by apply lookup_insert_ne.
  - by apply map_size_insert_None.
  - apply socket_join_elem.
Qed.

(** X2. create-room returns exactly when one of the candidate codes is not
    yet a key of the registry. *)
Theorem create_room_returns_iff sock (userName : string) (codes : list string)
    rooms :
  is_Some (create_room sock userName codes rooms) ↔
  ∃ c, c ∈ codes ∧ rooms !! c = None.
Proof.
  unfold create_room. split.
  - destruct (freshRoomCode codes rooms) as [roomCode|] eqn:Hfresh.
    + intros _.
      destruct (freshRoomCode_Some _ _ _ Hfresh) as (taken & rest & -> & _ & Hn).
      exists roomCode. split; [|done]. apply elem_of_app. right. left.
    + by intros [out Hout].
  - intros (c & Hin & Hfree).
    destruct (freshRoomCode codes rooms) as [roomCode|] eqn:Hfresh; [done|].
    rewrite freshRoomCode_None in Hfresh.
    destruct (Hfresh c Hin) as [room Hroom]. congruence.
Qed.

(** ** The playback state along a run *)

Lemma depart_playback id room :
  media (depart id room) = media room ∧
  queue (depart id room) = queue room ∧
  currentIndex (depart id room) = currentIndex room ∧
  isPlaying (depart id room) = isPlaying room ∧
  currentTime (depart id room) = currentTime room.
Proof.
  unfold depart. destruct (bool_decide _ && _); [|done].
  by destruct (users _ !! 0%nat).
Qed.

(** How [media], [queue] and [currentIndex] of a room of the new registry
    relate to the old registry, for every request. *)
Lemma handle_playback sock (req : Request num) env rooms out (c : string) room' :
  handle sock req env rooms = Some out →
  out_rooms out !! c = Some room' →
  (∃ room, rooms !! c = Some room ∧ media room' = media room ∧
           queue room' = queue room ∧ currentIndex room' = currentIndex room) ∨
  (∃ room m, rooms !! c = Some room ∧
      ((media room' = media room ∧ queue room' = queue room ++ [m] ∧
        currentIndex room' = currentIndex room) ∨
       (media room' = JMedia m ∧ queue room' = [m] ∧
        currentIndex room' = Idx 0))) ∨
  (∃ room, rooms !! c = Some room ∧
      navigates_empty {| st_sock := sock; st_req := req; st_env := env |} rooms
        = match queue room with [] => true | _ :: _ => false end ∧
      queue room' = queue room ∧
      media room' = js_index (queue room) (currentIndex room') ∧
      (currentIndex room' =
         js_rem (js_add (currentIndex room) 1)
                (Z.of_nat (length (queue room))) ∨
       currentIndex room' =
         js_rem (js_add (js_add (currentIndex room) (-1))
                        (Z.of_nat (length (queue room))))
                (Z.of_nat (length (queue room))))) ∨
  (media room' = JNull ∧ queue room' = [] ∧ currentIndex room' = Idx 0).
Proof.
  intros Hhandle Hlook.
  assert (Hsame : rooms !! c = Some room' →
            ∃ room, rooms !! c = Some room ∧ media room' = media room ∧
              queue room' = queue room ∧ currentIndex room' = currentIndex room)
    by (intros ?; by exists room').
  destruct req; simpl in Hhandle;
    try (injection Hhandle as <-);
    try (unfold load_media, play, pause, seek, next_video, prev_video,
           show_current, host_only in Hlook;
         destruct (rooms !! roomCode) as [room0|] eqn:Hroom0;
         [|left; by apply Hsame];
         case_bool_decide as Hjoined; [|left; by apply Hsame];
         case_bool_decide as Hhost; [|left; by apply Hsame];
         simpl in Hlook;
         destruct (decide (c = roomCode)) as [->|Hc];
         [ rewrite lookup_insert_eq in Hlook; injection Hlook as <-
         | rewrite lookup_insert_ne in Hlook by done;
           left; by apply Hsame ]).
  - (* join-room *)
    unfold join_room in Hlook.
    destruct (rooms !! roomCode) as [room0|] eqn:Hroom0;
      [|left; by apply Hsame].
    simpl in Hlook. destruct (decide (c = roomCode)) as [->|Hc].
    + rewrite lookup_insert_eq in Hlook. injection Hlook as <-.
      left. by exists room0.
    + rewrite lookup_insert_ne in Hlook by done. left. by apply Hsame.
  - (* create-room *)
    unfold create_room in Hhandle.
    destruct (freshRoomCode (env_codes env) rooms) as [roomCode|];
      [|discriminate].
    injection Hhandle as <-. simpl in Hlook.
    destruct (decide (c = roomCode)) as [->|Hc].
    + rewrite lookup_insert_eq in Hlook. injection Hlook as <-.
      by right; right; right.
    + rewrite lookup_insert_ne in Hlook by done. left. by apply Hsame.
  - (* load-media *)
    right; left. exists room0, m. split; [done|].
    destruct addToQueue; [by left|by right].
  - left. by exists room0.
  - left. by exists room0.
  - left. by exists room0.
  - (* next-video *)
    right; right; left. exists room0. split; [done|].
    unfold navigates_empty. simpl. rewrite Hroom0.
    rewrite !bool_decide_eq_true_2 by done. simpl.
    repeat split; try done. by left.
  - (* prev-video *)
    right; right; left. exists room0. split; [done|].
    unfold navigates_empty. simpl. rewrite Hroom0.
    rewrite !bool_decide_eq_true_2 by done. simpl.
    repeat split; try done. by right.
  - (* send-chat *)
    left. apply Hsame. unfold send_chat in Hlook.
    destruct (rooms !! roomCode); [|done].
    case_bool_decide; [|done]. by destruct (List.find _ _).
  - left. by apply Hsame.
  - left. by apply Hsame.
  - left. by apply Hsame.
  - (* disconnect *)
    rewrite disconnect_lookup in Hlook.
    case_bool_decide; [|left; by apply Hsame].
    destruct (rooms !! c) as [room|] eqn:Hroom; [|done].
    simpl in Hlook. unfold remaining in Hlook.
    destruct (length _ =? 0)%nat; [done|]. injection Hlook as <-.
    left. exists room.
    destruct (depart_playback (sock_id sock) room) as (? & ? & ? & _).
    done.
Qed.

Lemma js_index_elem (q : list Media) (i : JsInt) (m : Media) :
  js_index q i = JMedia m → m ∈ q.
Proof.
  unfold js_index. destruct i as [z|]; [|done].
  destruct (_ && _); [|done].
  destruct (q !! Z.to_nat z) as [m'|] eqn:Hm; [|done].
  intros [= <-]. by eapply list_elem_of_lookup_2.
Qed.

Lemma run_media_in_queue (trace : list (Step num)) rooms rooms' :
  (∀ c room, rooms !! c = Some room → media_in_queue room) →
  run trace rooms = Some rooms' →
  ∀ c room, rooms' !! c = Some room → media_in_queue room.
Proof.
  revert rooms. induction trace as [|st trace IH]; intros rooms Hinv; simpl.
  - by intros [= <-].
  - destruct (handle _ _ _ rooms) as [out|] eqn:Hhandle; [|done].
    apply IH. intros c room' Hlook m.
    destruct (handle_playback _ _ _ _ _ _ _ Hhandle Hlook)
      as [(room & Hroom & Hm & Hq & _)
         |[(room & m' & Hroom & [(Hm & Hq & _)|(Hm & Hq & _)])
          |[(room & Hroom & _ & Hq & Hm & _)
           |(Hm & _)]]];
      rewrite Hm, ?Hq.
    + by apply (Hinv _ _ Hroom).
    + intros Hshown. apply elem_of_app. left. by apply (Hinv _ _ Hroom).
    + intros [= <-]. left.
    + apply js_index_elem.
    + done.
Qed.

(** X3. Starting from the empty registry and after any sequence of
    requests, whenever a room shows a media reference, that reference is an
    entry of the room's queue. *)
Theorem media_always_in_queue (trace : list (Step num)) rooms roomCode room
    (m : Media) :
  run trace ∅ = Some rooms →
  rooms !! roomCode = Some room →
  media room = JMedia m →
  m ∈ queue room.
Proof.
  intros Hrun Hroom. eapply run_media_in_queue; [|exact Hrun|exact Hroom].
  intros c r. by rewrite lookup_empty.
Qed.

Lemma run_index_valid (trace : list (Step num)) rooms rooms' :
  no_empty_navigation trace rooms = true →
  (∀ c room, rooms !! c = Some room → index_valid room) →
  run trace rooms = Some rooms' →
  ∀ c room, rooms' !! c = Some room → index_valid room.
Proof.
  revert rooms. induction trace as [|st trace IH]; intros rooms Hok Hinv; simpl.
  - by intros [= <-].
  - simpl in Hok. apply andb_true_iff in Hok as [Hnav Hok].
    apply negb_true_iff in Hnav.
    destruct (handle _ _ _ rooms) as [out|] eqn:Hhandle; [|done].
    apply IH; [exact Hok|]. intros c room' Hlook. unfold index_valid.
    destruct (handle_playback _ _ _ _ _ _ _ Hhandle Hlook)
      as [(room & Hroom & _ & Hq & Hi)
         |[(room & m' & Hroom & [(_ & Hq & Hi)|(_ & Hq & Hi)])
          |[(room & Hroom & Hempty & Hq & _ & Hi)
           |(_ & Hq & Hi)]]];
      rewrite ?Hq, ?Hi.
    + by apply (Hinv _ _ Hroom).
    + destruct (Hinv _ _ Hroom) as (i & -> & Hpos & Hlt).
      exists i. rewrite length_app. simpl. split; [done|]. lia.
    + exists 0. split; [done|]. lia.
    + destruct st as [s r e]. simpl in *. rewrite Hnav in Hempty.
      destruct (Hinv _ _ Hroom) as (i & Hidx & Hpos & _).
      assert (Hlen : 0 < Z.of_nat (length (queue room)))
        by (destruct (queue room); [done|simpl; lia]).
      destruct Hi as [Hi|Hi]; rewrite Hidx in Hi;
        rewrite ?next_index, ?prev_index in Hi by done; rewrite Hi;
        eexists; (split; [reflexivity|]);
        pose proof (Z.mod_pos_bound (i + 1) _ Hlen);
        pose proof (Z.mod_pos_bound (i - 1) _ Hlen); lia.
    + exists 0. split; [done|]. lia.
Qed.

(** X4. Starting from the empty registry, after any sequence of requests
    none of which is a navigation carried out on an empty queue, every room
    has an integer [currentIndex] that is 0 when the queue is empty and a
    position of the queue otherwise. *)
Theorem index_valid_without_empty_navigation (trace : list (Step num)) rooms
    roomCode room :
  no_empty_navigation trace ∅ = true →
  run trace ∅ = Some rooms →
  rooms !! roomCode = Some room →
  index_valid room.
Proof.
  intros Hok Hrun. eapply run_index_valid; [exact Hok| |exact Hrun].
  intros c r. by rewrite lookup_empty.
Qed.

(** ** The disconnect loop *)

Lemma filter_ext_elem {A} (P1 P2 : A → Prop)
    `{!∀ x, Decision (P1 x), !∀ x, Decision (P2 x)} (l : list A) :
  (∀ x, x ∈ l → P1 x ↔ P2 x) → filter P1 l = filter P2 l.
Proof.
  induction l as [|a l IH]; intros Hiff; [done|].
  rewrite !filter_cons.
  rewrite IH by (intros x Hx; apply Hiff; by right).
  apply decide_ext, Hiff. left.
Qed.

Lemma filter_none_pass {A} (P : A → Prop) `{!∀ x, Decision (P x)} (l : list A) :
  (∀ x, x ∈ l → ¬ P x) → filter P l = [].
Proof.
  induction l as [|a l IH]; intros Hall; [done|].
  rewrite filter_cons_False by (apply Hall; left).
  apply IH. intros x Hx. apply Hall. by right.
Qed.

(** X5. What the disconnect handler leaves under the key of a room it
    visits (a name of [socket.rooms] other than the connection's id): the
    entries of the departing connection are removed from [users]; if nobody
    is left the key is deleted; otherwise the room stays, its host replaced
    by the first remaining member exactly when the departing connection was
    the host, and nothing else in the room changes. *)
Theorem disconnect_visited_room sock rooms roomCode room :
  rooms !! roomCode = Some room →
  roomCode ∈ sock_rooms sock →
  roomCode ≠ sock_id sock →
  out_rooms (disconnect sock rooms) !! roomCode =
  match filter (λ u, user_id u ≠ sock_id sock) (users room) with
  | [] => None
  | u :: stay =>
      Some {| hostId := if bool_decide (hostId room = sock_id sock)
                        then user_id u else hostId room;
              media := media room; queue := queue room;
              currentIndex := currentIndex room;
              isPlaying := isPlaying room; currentTime := currentTime room;
              users := u :: stay |}
  end.
Proof.
  intros Hroom Hin Hne.
  rewrite disconnect_lookup, bool_decide_eq_true_2, Hroom by done.
  simpl. unfold remaining, depart. simpl.
  destruct (filter _ (users room)) as [|u stay]; simpl.
  - by rewrite andb_false_r.
  - rewrite andb_true_r. by case_bool_decide.
Qed.

(** X6. The disconnect handler changes no key other than those of the
    rooms it visits: a key that is not in [socket.rooms], or that equals
    the connection's id, holds afterwards what it held before. *)
Theorem disconnect_other_keys sock rooms (c : string) :
  c ∉ sock_rooms sock ∨ c = sock_id sock →
  out_sock (disconnect sock rooms) = sock ∧
  out_rooms (disconnect sock rooms) !! c = rooms !! c.
Proof.
  intros Hskip. split; [done|].
  rewrite disconnect_lookup, bool_decide_eq_false_2; [done|].
  intros [Hin Hne]. by destruct Hskip.
Qed.

Lemma leave_room_emits sock
    (acc : gmap string (Room num) * list (Emission num)) (roomCode : string) :
  (leave_room sock acc roomCode).2 =
  acc.2 ++
  if decide (is_Some (acc.1 !! roomCode) ∧ roomCode ≠ sock_id sock)
  then [bo_emit (io_to roomCode) (EvUserLeft (sock_id sock))]
  else [].
Proof.
  unfold leave_room. destruct (acc.1 !! roomCode) as [room|].
  - case_bool_decide.
    + by rewrite decide_True by (split; [by eexists|done]).
    + rewrite decide_False by tauto. by rewrite app_nil_r.
  - rewrite decide_False; [by rewrite app_nil_r|].
    intros [[? ?] _]. done.
Qed.

Lemma leave_rooms_emits sock (codes : list string)
    (acc : gmap string (Room num) * list (Emission num)) :
  NoDup codes →
  (foldl (leave_room sock) acc codes).2 =
  acc.2 ++
  ((λ c, bo_emit (io_to c) (EvUserLeft (sock_id sock))) <$>
     filter (λ c, is_Some (acc.1 !! c) ∧ c ≠ sock_id sock) codes).
Proof.
  revert acc. induction codes as [|a codes IH]; intros acc Hnd; cbn [foldl].
  - by rewrite app_nil_r.
  - apply NoDup_cons in Hnd as [Ha Hnd].
    rewrite IH, leave_room_emits, <- app_assoc by done. f_equal.
    rewrite (filter_ext_elem
               (λ c, is_Some ((leave_room sock acc a).1 !! c) ∧ c ≠ sock_id sock)
               (λ c, is_Some (acc.1 !! c) ∧ c ≠ sock_id sock)).
    + rewrite filter_cons. by case_decide.
    + intros c Hc. rewrite leave_room_lookup.
      rewrite bool_decide_eq_false_2; [done|].
      intros [-> _]. done.
Qed.

(** X7. [socket.rooms] lists each room once. The disconnect handler emits
    one user-left event, carrying the connection's id, to each room it
    visits that is a key of the registry, in the order of [socket.rooms],
    and nothing else. *)
Theorem disconnect_emits_user_left sock rooms :
  NoDup (sock_rooms sock) →
  out_emits (disconnect sock rooms) =
  (λ c, bo_emit (io_to c) (EvUserLeft (sock_id sock))) <$> rooms_left sock rooms.
Proof.
  intros Hnd. unfold disconnect, rooms_left. simpl.
  by rewrite leave_rooms_emits.
Qed.

(** X8. A member who is not the host disconnects from a room whose host is
    a member: the room stays in the registry with the same host, the
    departing connection is no longer listed, and the other members keep
    their order. *)
Theorem non_host_leaving_keeps_host sock rooms roomCode room :
  rooms !! roomCode = Some room →
  roomCode ∈ sock_rooms sock →
  roomCode ≠ sock_id sock →
  hostId room ≠ sock_id sock →
  host_is_member room →
  ∃ room',
    out_rooms (disconnect sock rooms) !! roomCode = Some room' ∧
    hostId room' = hostId room ∧
    users room' = filter (λ u, user_id u ≠ sock_id sock) (users room) ∧
    (sock_id sock ∉ user_id <$> users room') ∧
    host_is_member room'.
Proof.
  intros Hroom Hin Hne Hhost (h & Hh & Hhid).
  assert (Hstay : h ∈ filter (λ u, user_id u ≠ sock_id sock) (users room))
    by (apply list_elem_of_filter; split; [congruence|done]).
  assert (Hhost' : hostId (depart (sock_id sock) room) = hostId room).
  { rewrite depart_hostId. destruct (filter _ (users room)); [done|].
    by rewrite bool_decide_eq_false_2. }
  exists (depart (sock_id sock) room).
  rewrite disconnect_lookup, bool_decide_eq_true_2, Hroom by done.
  simpl. unfold remaining. rewrite Hhost', depart_users.
  split; [|split; [done|split; [done|split]]].
  - destruct (filter _ (users room)); [by apply elem_of_nil in Hstay|done].
  - rewrite list_elem_of_fmap. intros (v & Hv & Hvin).
    apply list_elem_of_filter in Hvin. destruct Hvin as [Hvne _]. congruence.
  - exists h. by rewrite depart_users, Hhost'.
Qed.

Lemma handle_keeps_room sock (req : Request num) env rooms out (c : string)
    room :
  (req = Disconnect → sock_rooms sock = []) →
  handle sock req env rooms = Some out →
  rooms !! c = Some room →
  ∃ room' joined,
    out_rooms out !! c = Some room' ∧
    hostId room' = hostId room ∧
    users room' = users room ++ joined.
Proof.
  intros Hleft Hhandle Hroom.
  assert (Hsame : ∀ after : gmap string (Room num), after = rooms →
            ∃ room' joined, after !! c = Some room' ∧
              hostId room' = hostId room ∧ users room' = users room ++ joined).
  { intros after ->. exists room, []. by rewrite app_nil_r. }
  destruct req; simpl in Hhandle;
    try (injection Hhandle as <-);
    try (unfold load_media, play, pause, seek, next_video, prev_video,
           show_current, host_only;
         destruct (rooms !! roomCode) as [room0|] eqn:Hroom0;
         [|by apply Hsame];
         repeat (case_bool_decide; [|by apply Hsame]);
         cbn [out_rooms];
         destruct (decide (c = roomCode)) as [->|Hc];
         [ rewrite lookup_insert_eq; rewrite Hroom0 in Hroom;
           injection Hroom as <-; eexists _, [];
           (split; [reflexivity|]); rewrite app_nil_r;
           try destruct addToQueue; done
         | rewrite lookup_insert_ne by done;
           exists room, []; by rewrite app_nil_r ]).
  - (* join-room *)
    unfold join_room.
    destruct (rooms !! roomCode) as [room0|] eqn:Hroom0; [|by apply Hsame].
    cbn [out_rooms]. destruct (decide (c = roomCode)) as [->|Hc].
    + rewrite lookup_insert_eq. rewrite Hroom0 in Hroom.
      injection Hroom as <-. by eexists _, [_].
    + rewrite lookup_insert_ne by done. exists room, [].
      by rewrite app_nil_r.
  - (* create-room *)
    unfold create_room in Hhandle.
    destruct (freshRoomCode (env_codes env) rooms) as [roomCode|] eqn:Hfresh;
      [|discriminate].
    injection Hhandle as <-. cbn [out_rooms].
    destruct (freshRoomCode_Some _ _ _ Hfresh) as (_ & _ & _ & _ & Hnew).
    rewrite lookup_insert_ne by congruence.
    exists room, []. by rewrite app_nil_r.
  - (* send-chat *)
    apply Hsame. unfold send_chat.
    destruct (rooms !! roomCode); [|done].
    case_bool_decide; [|done]. by destruct (List.find _ _).
  - by apply Hsame.
  - by apply Hsame.
  - by apply Hsame.
  - (* disconnect *)
    rewrite disconnect_lookup, Hleft by done.
    rewrite bool_decide_eq_false_2
      by (intros [Hin _]; by apply elem_of_nil in Hin).
    exists room, []. by rewrite app_nil_r.
Qed.

(** X9. The disconnect listener runs on a connection that the transport
    has already taken out of its rooms. In any sequence of requests whose
    disconnects are handled that way, a room that is in the registry stays
    in it for good, under the same host, and the entries of its [users]
    list are never removed: the list only grows at its end. *)
Theorem rooms_outlive_disconnects (trace : list (Step num)) rooms rooms'
    roomCode room :
  disconnects_after_leaving trace = true →
  run trace rooms = Some rooms' →
  rooms !! roomCode = Some room →
  ∃ room' joined,
    rooms' !! roomCode = Some room' ∧
    hostId room' = hostId room ∧
    users room' = users room ++ joined.
Proof.
  revert rooms room.
  induction trace as [|st trace IH]; intros rooms room Hleft Hrun Hroom.
  - injection Hrun as <-. exists room, []. by rewrite app_nil_r.
  - simpl in Hleft, Hrun. apply andb_true_iff in Hleft as [Hst Hleft].
    destruct (handle _ _ _ rooms) as [out|] eqn:Hhandle; [|done].
    assert (Hempty : st_req st = Disconnect → sock_rooms (st_sock st) = []).
    { intros Hreq. rewrite Hreq in Hst.
      by destruct (sock_rooms (st_sock st)). }
    destruct (handle_keeps_room _ _ _ _ _ roomCode room Hempty Hhandle Hroom)
      as (room1 & joined1 & Hroom1 & Hhost1 & Husers1).
    destruct (IH _ _ Hleft Hrun Hroom1)
      as (room' & joined' & Hroom' & Hhost' & Husers').
    exists room', (joined1 ++ joined'). split; [done|].
    split; [congruence|]. by rewrite Husers', Husers1, app_assoc.
Qed.

Lemma remaining_host_is_first id room room' :
  host_is_first room →
  remaining id room = Some room' →
  host_is_first room'.
Proof.
  intros (u & rest & Husers & Hhost). unfold remaining.
  destruct (length (users (depart id room)) =? 0)%nat eqn:Hlen; [done|].
  intros [= <-]. unfold host_is_first.
  rewrite depart_users in Hlen.
  rewrite depart_users, depart_hostId, Husers, Hhost, filter_cons.
  rewrite Husers, filter_cons in Hlen.
  case_decide as Hu.
  - exists u, (filter (λ v, user_id v ≠ id) rest).
    split; [done|]. by rewrite bool_decide_eq_false_2.
  - rewrite bool_decide_eq_true_2 by done.
    destruct (filter _ rest) as [|v stay]; [done|].
    by exists v, stay.
Qed.

(** X10. Starting from the empty registry and after any sequence of
    requests, the host of every room is the connection of the first entry
    of its [users] list: the creator, or, wherever the disconnect loop has
    removed a host, the earliest-joined member left. *)
Theorem host_is_first_member (trace : list (Step num)) rooms roomCode room :
  run trace ∅ = Some rooms →
  rooms !! roomCode = Some room →
  host_is_first room.
Proof.
  intros Hrun.
  assert (Hgen : ∀ (tr : list (Step num)) start final,
            (∀ c r, start !! c = Some r → host_is_first r) →
            run tr start = Some final →
            ∀ c r, final !! c = Some r → host_is_first r).
  { induction tr as [|st tr IH]; intros start final Hinv; simpl.
    - by intros [= <-].
    - destruct (handle _ _ _ start) as [out|] eqn:Hhandle; [|done].
      apply IH. intros c room' Hlook.
      destruct (handle_members _ _ _ _ _ _ _ Hhandle Hlook)
        as [(r & Hr & Hh & Hu)
           |[(r & userName & _ & Hr & Hh & Hu)
            |[(userName & _ & Hh & Hu)
             |(r & _ & Hr & Hrem)]]].
      + destruct (Hinv _ _ Hr) as (u & rest & Husers & Hhost).
        exists u, rest. split; congruence.
      + destruct (Hinv _ _ Hr) as (u & rest & Husers & Hhost).
        eexists u, _. rewrite Hu, Husers. split; [reflexivity|congruence].
      + eexists _, []. by rewrite Hu, Hh.
      + eapply remaining_host_is_first; [|exact Hrem]. by eapply Hinv. }
  eapply Hgen; [|exact Hrun]. intros c r. by rewrite lookup_empty.
Qed.

(** X11. Seen from the loop body of the disconnect handler: if the loop
    visits the host's room (its code is in [socket.rooms] as the listener
    finds it, and differs from the connection's id) and promotes the first
    remaining member, a seek request from that member passes the host
    check, which reads [hostId] at every request: it stores the new position
    and tells the room. *)
Theorem promoted_host_can_seek sock sock' rooms roomCode room
    (gone : list User) (u : User) (rest : list User) (newTime : num) (now : Z) :
  rooms !! roomCode = Some room →
  roomCode ∈ sock_rooms sock →
  roomCode ≠ sock_id sock →
  hostId room = sock_id sock →
  users room = gone ++ u :: rest →
  (∀ v, v ∈ gone → user_id v = sock_id sock) →
  user_id u ≠ sock_id sock →
  sock_id sock' = user_id u →
  roomCode ∈ sock_rooms sock' →
  let rooms' := out_rooms (disconnect sock rooms) in
  ∃ room',
    rooms' !! roomCode = Some room' ∧
    seek sock' roomCode newTime now rooms' =
    {| out_sock := sock';
       out_rooms := <[roomCode := set_currentTime newTime room']> rooms';
       out_emits := [bo_emit (io_to roomCode) (EvSyncSeek newTime now)] |}.
Proof.
  intros Hroom Hin Hne Hhost Husers Hgone Hu Hid Hin' rooms'.
  assert (Hf : filter (λ v, user_id v ≠ sock_id sock) (users room) =
               u :: filter (λ v, user_id v ≠ sock_id sock) rest).
  { rewrite Husers, filter_app, filter_cons_True by done.
    rewrite filter_none_pass; [done|].
    intros v Hv Hvne. by apply Hvne, Hgone. }
  assert (Hroom' : rooms' !! roomCode = Some (depart (sock_id sock) room)).
  { unfold rooms'.
    rewrite disconnect_lookup, bool_decide_eq_true_2, Hroom by done.
    simpl. unfold remaining. by rewrite depart_users, Hf. }
  exists (depart (sock_id sock) room). split; [done|].
  unfold seek. rewrite (host_only_pass _ _ _ _ _ Hroom' Hin'); [done|].
  rewrite depart_hostId, Hf, Hid. by rewrite bool_decide_eq_true_2.
Qed.

(** ** Navigation and loading on a valid position *)

Lemma js_index_in_range (q : list Media) (j : Z) :
  0 ≤ j < Z.of_nat (length q) →
  ∃ m, q !! Z.to_nat j = Some m ∧ js_index q (Idx j) = JMedia m.
Proof.
  intros Hj. unfold js_index.
  destruct (lookup_lt_is_Some_2 q (Z.to_nat j)) as [m Hm]; [lia|].
  exists m. split; [done|]. rewrite Hm.
  destruct (Z.leb_spec 0 j); [|lia]. destruct (Z.ltb_spec j (Z.of_nat (length q)));
    [done|lia].
Qed.

(** The outcome of a navigation request by the host from a valid
    position. *)
Lemma navigate_outcome sock roomCode now rooms room (n : Nav) (i : Z) :
  rooms !! roomCode = Some room →
  roomCode ∈ sock_rooms sock →
  hostId room = sock_id sock →
  currentIndex room = Idx i →
  0 ≤ i < Z.of_nat (length (queue room)) →
  ∃ m,
    queue room !!
      Z.to_nat ((i + match n with Next => 1 | Prev => -1 end)
                mod Z.of_nat (length (queue room))) = Some m ∧
    match n with
    | Next => next_video sock roomCode now rooms
    | Prev => prev_video sock roomCode now rooms
    end =
    let j := (i + match n with Next => 1 | Prev => -1 end)
             mod Z.of_nat (length (queue room)) in
    {| out_sock := sock;
       out_rooms :=
         <[roomCode := {| hostId := hostId room; media := JMedia m;
                          queue := queue room; currentIndex := Idx j;
                          isPlaying := false; currentTime := num_of_Z 0;
                          users := users room |}]> rooms;
       out_emits :=
         [ bo_emit (io_to roomCode) (EvMediaUpdated (JMedia m) (queue room) (Idx j));
           bo_emit (io_to roomCode) (EvSyncSeek (num_of_Z 0) now) ] |}.
Proof.
  intros Hroom Hin Hhost Hidx Hi.
  set (N := Z.of_nat (length (queue room))) in *.
  set (j := (i + match n with Next => 1 | Prev => -1 end) mod N).
  assert (Hj : 0 ≤ j < N) by (apply Z.mod_pos_bound; lia).
  destruct (js_index_in_range (queue room) j Hj) as (m & Hm & Hshow).
  exists m. split; [exact Hm|].
  destruct n; unfold next_video, prev_video;
    rewrite (host_only_pass _ _ _ room) by done;
    unfold show_current; cbn [queue currentIndex set_currentIndex set_media
      set_currentTime set_isPlaying media hostId users isPlaying currentTime];
    rewrite Hidx; fold N;
    rewrite ?next_index, ?prev_index by lia;
    change (i - 1) with (i + -1); fold j; by rewrite Hshow.
Qed.

(** X12. The host of a room whose [currentIndex] is a valid position asks
    for the next or the previous video: the room then shows the queue entry
    at the new position, playback is stopped at position 0, the host, the
    members and the queue are unchanged, and the room is sent media-updated
    with that entry followed by sync-seek to 0. *)
Theorem navigation_shows_queue_entry sock roomCode now rooms room (n : Nav)
    (i : Z) :
  rooms !! roomCode = Some room →
  roomCode ∈ sock_rooms sock →
  hostId room = sock_id sock →
  currentIndex room = Idx i →
  0 ≤ i < Z.of_nat (length (queue room)) →
  let out := match n with
             | Next => next_video sock roomCode now rooms
             | Prev => prev_video sock roomCode now rooms
             end in
  let j := (i + match n with Next => 1 | Prev => -1 end)
           mod Z.of_nat (length (queue room)) in
  ∃ room' m,
    out_rooms out !! roomCode = Some room' ∧
    queue room !! Z.to_nat j = Some m ∧
    currentIndex room' = Idx j ∧ media room' = JMedia m ∧
    isPlaying room' = false ∧ currentTime room' = num_of_Z 0 ∧
    queue room' = queue room ∧ hostId room' = hostId room ∧
    users room' = users room ∧
    out_emits out =
      [ bo_emit (io_to roomCode) (EvMediaUpdated (JMedia m) (queue room) (Idx j));
        bo_emit (io_to roomCode) (EvSyncSeek (num_of_Z 0) now) ].
Proof.
  intros Hroom Hin Hhost Hidx Hi out j.
  destruct (navigate_outcome sock roomCode now rooms room n i)
    as (m & Hm & Hout); try done.
  unfold out. rewrite Hout. cbn [out_rooms out_emits].
  rewrite lookup_insert_eq. eexists _, m.
  split; [reflexivity|]. by repeat split.
Qed.

(** X13. From a valid position, next-video followed by prev-video, or
    prev-video followed by next-video, brings [currentIndex] back to where
    it was, and the room shows the queue entry at that position. *)
Theorem navigation_round_trip sock roomCode now rooms room (n : Nav) (i : Z) :
  rooms !! roomCode = Some room →
  roomCode ∈ sock_rooms sock →
  hostId room = sock_id sock →
  currentIndex room = Idx i →
  0 ≤ i < Z.of_nat (length (queue room)) →
  let back := match n with Next => Prev | Prev => Next end in
  ∃ room' m,
    navigate_all sock roomCode now [n; back] rooms !! roomCode = Some room' ∧
    currentIndex room' = Idx i ∧
    queue room' = queue room ∧
    queue room !! Z.to_nat i = Some m ∧
    media room' = JMedia m.
Proof.
  intros Hroom Hin Hhost Hidx Hi back.
  set (N := Z.of_nat (length (queue room))) in *.
  destruct (navigate_outcome sock roomCode now rooms room n i)
    as (m1 & _ & Hout1); try done.
  set (j := (i + match n with Next => 1 | Prev => -1 end) mod N) in *.
  assert (Hj : 0 ≤ j < N) by (apply Z.mod_pos_bound; lia).
  assert (Hfirst : navigate sock roomCode now rooms n !! roomCode =
            Some {| hostId := hostId room; media := JMedia m1;
                    queue := queue room; currentIndex := Idx j;
                    isPlaying := false; currentTime := num_of_Z 0;
                    users := users room |}).
  { unfold navigate. destruct n; rewrite Hout1; apply lookup_insert_eq. }
  destruct (navigate_outcome sock roomCode now
              (navigate sock roomCode now rooms n) _ back j Hfirst)
    as (m & Hm & Hout2); try done.
  cbn [queue] in Hm, Hout2. fold N in Hm, Hout2.
  assert (Hback : (j + match back with Next => 1 | Prev => -1 end) mod N = i).
  { unfold j, back. destruct n.
    - rewrite Zplus_mod_idemp_l.
      replace (i + 1 + -1) with i by lia. apply Z.mod_small. lia.
    - rewrite Zplus_mod_idemp_l.
      replace (i + -1 + 1) with i by lia. apply Z.mod_small. lia. }
  rewrite Hback in Hm, Hout2.
  unfold navigate_all. cbn [foldl].
  eexists _, m. split.
  - unfold navigate at 1. destruct n; unfold back in Hout2;
      rewrite Hout2; apply lookup_insert_eq.
  - by repeat split.
Qed.

(** X14. The host loads a media reference without [addToQueue]: whatever
    the queue and position were, the queue becomes that single reference,
    [currentIndex] is 0 and the room shows the reference, so the room shows
    the queue entry at [currentIndex]; [isPlaying], [currentTime], host and
    members are untouched; the event sent to the room carries the room's
    new media, queue and index. *)
Theorem load_media_replaces_queue sock roomCode (m : Media) rooms room :
  rooms !! roomCode = Some room →
  roomCode ∈ sock_rooms sock →
  hostId room = sock_id sock →
  let out := load_media sock roomCode m false rooms in
  ∃ room',
    out_rooms out !! roomCode = Some room' ∧
    queue room' = [m] ∧ currentIndex room' = Idx 0 ∧
    media room' = js_index (queue room') (currentIndex room') ∧
    isPlaying room' = isPlaying room ∧ currentTime room' = currentTime room ∧
    hostId room' = hostId room ∧ users room' = users room ∧
    out_emits out =
      [bo_emit (io_to roomCode)
         (EvMediaUpdated (media room') (queue room') (currentIndex room'))].
Proof.
  intros Hroom Hin Hhost out. unfold out, load_media.
  rewrite (host_only_pass _ _ _ room) by done.
  cbn [out_rooms out_emits]. rewrite lookup_insert_eq.
  eexists. split; [reflexivity|]. by repeat split.
Qed.

(** ** Chat *)

Lemma find_first_entry (id : string) (before : list User) (u : User)
    (after : list User) :
  user_id u = id →
  (∀ v, v ∈ before → user_id v ≠ id) →
  List.find (λ v, bool_decide (user_id v = id)) (before ++ u :: after) = Some u.
Proof.
  intros Hu. induction before as [|v before IH]; intros Hbefore; simpl.
  - by rewrite bool_decide_eq_true_2.
  - rewrite bool_decide_eq_false_2 by (apply Hbefore; left).
    apply IH. intros w Hw. apply Hbefore. by right.
Qed.

Lemma find_no_entry (id : string) (l : list User) :
  (∀ v, v ∈ l → user_id v ≠ id) →
  List.find (λ v, bool_decide (user_id v = id)) l = None.
Proof.
  induction l as [|v l IH]; intros Hall; simpl; [done|].
  rewrite bool_decide_eq_false_2 by (apply Hall; left).
  apply IH. intros w Hw. apply Hall. by right.
Qed.

(** X15. A chat message from a connection that has joined the room and is
    listed in it is sent to the whole room under the name stored in its
    first [users] entry, whatever name the request carries, stamped with
    the server's clock; the registry is unchanged. *)
Theorem chat_uses_stored_name sock roomCode (message userName : string) env
    rooms room (before : list User) (u : User) (after : list User) :
  rooms !! roomCode = Some room →
  roomCode ∈ sock_rooms sock →
  users room = before ++ u :: after →
  user_id u = sock_id sock →
  (∀ v, v ∈ before → user_id v ≠ sock_id sock) →
  handle sock (SendChat roomCode message userName) env rooms =
  Some {| out_sock := sock; out_rooms := rooms;
          out_emits :=
            [bo_emit (io_to roomCode)
               (EvNewChat (user_name u) message (env_now env))] |}.
Proof.
  intros Hroom Hin Husers Hu Hbefore. simpl. unfold send_chat.
  rewrite Hroom, bool_decide_eq_true_2, Husers by done.
  by rewrite find_first_entry.
Qed.

(** X16. A chat message is dropped, with no event and no change, when the
    room does not exist, when the connection has not joined it, or when the
    connection is not listed in its [users]. *)
Theorem chat_from_outsider_dropped sock roomCode (message userName : string)
    env rooms :
  rooms !! roomCode = None ∨
  roomCode ∉ sock_rooms sock ∨
  (∃ room, rooms !! roomCode = Some room ∧
           ∀ v, v ∈ users room → user_id v ≠ sock_id sock) →
  handle sock (SendChat roomCode message userName) env rooms =
  Some (dropped sock rooms).
Proof.
  intros Hout. simpl. f_equal. unfold send_chat.
  destruct Hout as [Hnone | [Hnot | (room & Hroom & Hall)]].
  - by rewrite Hnone.
  - destruct (rooms !! roomCode); [|done].
    by rewrite bool_decide_eq_false_2.
  - rewrite Hroom. case_bool_decide; [|done].
    by rewrite find_no_entry.
Qed.

(** ** What the control requests leave alone *)

(** X17. A control request (load-media, play, pause, seek, next-video,
    prev-video), carried out or not, leaves the connection's membership as
    it was, changes no room other than the one it names, neither creates
    nor deletes that room, and keeps its host and its members. *)
Theorem control_frame sock (req : Request num) env rooms roomCode
    (out : Outcome num) :
  control_target req = Some roomCode →
  handle sock req env rooms = Some out →
  out_sock out = sock ∧
  (∀ c, c ≠ roomCode → out_rooms out !! c = rooms !! c) ∧
  dom (out_rooms out) = dom rooms ∧
  ∀ room room',
    rooms !! roomCode = Some room →
    out_rooms out !! roomCode = Some room' →
    hostId room' = hostId room ∧ users room' = users room.
Proof.
  intros Htarget Hhandle.
  assert (Hdropped :
    dropped sock rooms = dropped sock rooms →
    out_sock (dropped sock rooms) = sock ∧
    (∀ c, c ≠ roomCode → out_rooms (dropped sock rooms) !! c = rooms !! c) ∧
    dom (out_rooms (dropped sock rooms)) = dom rooms ∧
    ∀ room room',
      rooms !! roomCode = Some room →
      out_rooms (dropped sock rooms) !! roomCode = Some room' →
      hostId room' = hostId room ∧ users room' = users room).
  { intros _. repeat split; try done; simpl in *; congruence. }
  destruct req; simpl in Htarget; try discriminate;
    injection Htarget as ->; simpl in Hhandle; injection Hhandle as <-;
    unfold load_media, play, pause, seek, next_video, prev_video,
      show_current, host_only;
    (destruct (rooms !! roomCode) as [room0|] eqn:Hroom0;
       [|by apply Hdropped]);
    (case_bool_decide; [|by apply Hdropped]);
    (case_bool_decide; [|by apply Hdropped]);
    cbn [out_sock out_rooms];
    (split; [done|]);
    (split; [intros c Hc; by apply lookup_insert_ne|]);
    (split; [rewrite dom_insert_L;
             apply subseteq_union_1_L, singleton_subseteq_l, elem_of_dom;
             by eexists|]);
    intros room room' [= <-]; rewrite lookup_insert_eq; intros [= <-];
    try destruct addToQueue; done.
Qed.

(** ** What a late joiner is told *)

(** X18. The host plays from position [time]; a connection that joins
    afterwards is sent a room-state snapshot saying that the room is
    playing, at that same position [time] (the position is not advanced by
    the time elapsed since), with the room's media, queue, index and host,
    and the member names in join order ending with its own. *)
Theorem snapshot_after_play sock sock' roomCode (time : num) (now : Z)
    (userName : string) rooms room :
  rooms !! roomCode = Some room →
  roomCode ∈ sock_rooms sock →
  hostId room = sock_id sock →
  let rooms' := out_rooms (play sock roomCode time now rooms) in
  out_emits (join_room sock' roomCode userName rooms') =
  [ bo_emit (socket_to sock' roomCode) (EvUserJoined userName);
    socket_emit sock'
      (EvRoomState (media room) (queue room) (currentIndex room) true time
                   (hostId room) ((user_name <$> users room) ++ [userName])) ].
Proof.
  intros Hroom Hin Hhost rooms'. unfold rooms', play.
  rewrite (host_only_pass _ _ _ room) by done. cbn [out_rooms].
  unfold join_room. rewrite lookup_insert_eq. cbn [out_emits].
  unfold socket_to, socket_emit. simpl. by rewrite fmap_app.
Qed.

(** X19. The user-joined notice of a join goes to the connections that are
    in the room and not in the joiner's own room, that is, to the other
    members; the room-state snapshot goes to the joiner alone. *)
Theorem user_joined_reaches_others (sockets : list Socket) sock roomCode
    (userName : string) rooms room (id : string) :
  rooms !! roomCode = Some room →
  ∃ notice snapshot,
    out_emits (join_room sock roomCode userName rooms) = [notice; snapshot] ∧
    em_event notice = EvUserJoined userName ∧
    (id ∈ recipients sockets notice ↔
       ∃ s, s ∈ sockets ∧ sock_id s = id ∧
            roomCode ∈ sock_rooms s ∧ sock_id sock ∉ sock_rooms s) ∧
    recipients sockets snapshot = [sock_id sock].
Proof.
  intros Hroom. unfold join_room. rewrite Hroom. cbn [out_emits].
  eexists _, _. split; [reflexivity|]. split; [done|]. split; [|done].
  unfold recipients. cbn [em_dest bo_emit socket_to bo_rooms bo_except].
  rewrite list_elem_of_fmap. unfold in_any. simpl.
  split.
  - intros (s & -> & Hs). apply list_elem_of_In, filter_In in Hs.
    destruct Hs as [Hs Hcond]. exists s.
    apply andb_true_iff in Hcond as [Hroom' Hnot].
    rewrite orb_false_r in Hroom'. apply bool_decide_eq_true_1 in Hroom'.
    apply negb_true_iff in Hnot. rewrite orb_false_r in Hnot.
    apply bool_decide_eq_false_1 in Hnot.
    by rewrite list_elem_of_In.
  - intros (s & Hs & <- & Hin & Hnot). exists s. split; [done|].
    apply list_elem_of_In, filter_In. split; [by apply list_elem_of_In|].
    rewrite !orb_false_r.
    by rewrite bool_decide_eq_true_2, bool_decide_eq_false_2.
Qed.

End Further.

(** * The model at concrete inputs *)

Import Fixtures.

(** C3. In the room Alice has just created the queue is empty. Her
    next-video and prev-video requests are not rejected: each stores [NaN]
    in [currentIndex] and [undefined] in [media], and sends media-updated
    and sync-seek to the room; no error event is emitted. *)
Theorem navigation_on_empty_queue :
  run [mk_step alice (CreateRoom "Alice")] ∅ = Some created ∧
  queue <$> created !! code = Some [] ∧
  (let out := next_video alice_in code 1700000000001 created in
   out_rooms out !! code =
     Some (set_media JUndefined (set_currentIndex NaN fresh_room)) ∧
   out_emits out =
     [ bo_emit (io_to code) (EvMediaUpdated JUndefined [] NaN);
       bo_emit (io_to code)
         (EvSyncSeek (QArith_base.inject_Z 0) 1700000000001) ]) ∧
  (let out := prev_video alice_in code 1700000000001 created in
   out_rooms out !! code =
     Some (set_media JUndefined (set_currentIndex NaN fresh_room)) ∧
   out_emits out =
     [ bo_emit (io_to code) (EvMediaUpdated JUndefined [] NaN);
       bo_emit (io_to code)
         (EvSyncSeek (QArith_base.inject_Z 0) 1700000000001) ]).
Proof. vm_compute. repeat split; reflexivity. Qed.

(** C5. Alice is the host of the room she shares with Bob and Carol, and
    her connection closes. The disconnect listener finds [socket.rooms]
    empty, so its loop visits no room: the registry is what it was, with
    Alice still listed and still the host, nobody is promoted and no
    user-left is sent; Bob, the first remaining member, is not the host, and
    his seek request is dropped. *)
Theorem host_disconnect_promotes_nobody :
  let out := disconnect alice_gone joined in
  joined !! code = Some full_room ∧
  hostId full_room = sock_id alice_gone ∧
  out_rooms out = joined ∧
  out_emits out = [] ∧
  hostId <$> out_rooms out !! code = Some "alice-sid" ∧
  users <$> out_rooms out !! code = Some (users full_room) ∧
  seek bob_in code (QArith_base.inject_Z 30) 1700000000002 (out_rooms out) =
    dropped bob_in (out_rooms out).
Proof. vm_compute. repeat split; reflexivity. Qed.

(** C6. Alice is alone in the room she created, and her connection closes.
    The disconnect listener finds [socket.rooms] empty, so its loop visits
    no room: the room stays in the registry with Alice listed, and Bob's
    later join-room request for its code is not answered with the
    room-not-found error: he is added to the room and sent its state, with
    Alice as host. *)
Theorem last_member_disconnect_keeps_room :
  let out := disconnect alice_gone created in
  users <$> created !! code =
    Some [{| user_id := "alice-sid"; user_name := "Alice" |}] ∧
  out_rooms out !! code = Some fresh_room ∧
  out_emits out = [] ∧
  let later := join_room bob code "Bob" (out_rooms out) in
  users <$> out_rooms later !! code =
    Some [{| user_id := "alice-sid"; user_name := "Alice" |};
          {| user_id := "bob-sid"; user_name := "Bob" |}] ∧
  em_event <$> out_emits later =
    [ EvUserJoined "Bob";
      EvRoomState JNull [] (Idx 0) false (QArith_base.inject_Z 0) "alice-sid"
                  ["Alice"; "Bob"] ].
Proof. vm_compute. repeat split; reflexivity. Qed.

(** C7. Alice, Bob and Carol are in the room. Alice's voice-offer,
    voice-answer and ice-candidate requests naming Bob as [targetId] are
    each delivered to Bob and to Carol. *)
Theorem relay_reaches_the_room :
  let sockets := [alice_in; bob_in; carol_in] in
  out_sock (join_room bob code "Bob" created) = bob_in ∧
  recipients sockets <$>
    out_emits (voice_offer alice_in code "offer" "bob-sid" joined) =
    [["bob-sid"; "carol-sid"]] ∧
  recipients sockets <$>
    out_emits (voice_answer alice_in code "answer" "bob-sid" joined) =
    [["bob-sid"; "carol-sid"]] ∧
  recipients sockets <$>
    out_emits (ice_candidate alice_in code "candidate" "bob-sid" joined) =
    [["bob-sid"; "carol-sid"]].
Proof. vm_compute. repeat split; reflexivity. Qed.

(** C9. The room shows [xyz], its queue is [[xyz]]. The host adds [uvw] to
    the queue: the room still shows [xyz], and the media-updated event sent
    to the room carries [uvw] as its media. *)
Theorem add_to_queue_event_media :
  media <$> loaded !! code = Some (JMedia xyz) ∧
  let out := load_media alice_in code uvw true loaded in
  media <$> out_rooms out !! code = Some (JMedia xyz) ∧
  queue <$> out_rooms out !! code = Some [xyz; uvw] ∧
  currentIndex <$> out_rooms out !! code = Some (Idx 0) ∧
  out_emits out =
    [bo_emit (io_to code) (EvMediaUpdated (JMedia uvw) [xyz; uvw] (Idx 0))].
Proof. vm_compute. repeat split; reflexivity. Qed.

(** C8, as stated, fails: the creator of a room joins it, and is listed
    twice. *)
Lemma rejoin_duplicates_member :
  ∃ rooms room,
    run join_own_room ∅ = Some rooms ∧
    rooms !! code = Some room ∧
    ¬ distinct_members room.
Proof.
  eexists _, _. split; [vm_compute; reflexivity|].
  split; [vm_compute; reflexivity|].
  unfold distinct_members. simpl. rewrite NoDup_cons.
  intros [Hnotin _]. apply Hnotin. left.
Qed.

(** ** The theorems at concrete inputs *)

Ltac by_evaluation :=
  first
    [ vm_compute; reflexivity
    | apply (bool_decide_unpack _); vm_compute; exact I
    | vm_compute; discriminate
    | simpl; lia ].

(** After Alice has created the room, Bob and Carol have joined and Alice
    has disconnected, the host, Bob, is a member. *)
Lemma host_always_member_witness : host_is_member bob_room.
Proof.
  apply (host_always_member session alice_left code bob_room); by_evaluation.
Defined.

(** From position 2 of 3, next, next, prev, next. *)
Lemma navigation_is_modular_witness :
  ∃ room' j,
    navigate_all alice_in code 1700000000001 [Next; Next; Prev; Next] queued
      !! code = Some room' ∧
    queue room' = [xyz; uvw; rst] ∧
    currentIndex room' = Idx j ∧
    j = (2 + count_nav Next [Next; Next; Prev; Next]
           - count_nav Prev [Next; Next; Prev; Next]) mod 3 ∧
    0 ≤ j < 3.
Proof.
  apply (navigation_is_modular alice_in code 1700000000001
           [Next; Next; Prev; Next] queued room3 2); by_evaluation.
Defined.

(** Bob, a member but not the host, asks to play. *)
Lemma non_host_control_is_dropped_witness :
  handle bob_in (Play code (QArith_base.inject_Z 5)) env0 joined =
  Some (dropped bob_in joined).
Proof.
  apply (non_host_control_is_dropped bob_in _ env0 joined code);
    [by_evaluation|].
  right; right. exists full_room. split; by_evaluation.
Defined.

(** In the same session nobody joins twice, and the room that is left lists
    Bob and Carol once each. *)
Lemma members_distinct_without_rejoin_witness : distinct_members bob_room.
Proof.
  apply (members_distinct_without_rejoin session alice_left code bob_room);
    by_evaluation.
Defined.

(** Alice plays from 5 seconds; a client whose clock is 250 ms past the
    server's stamp. *)
Lemma sync_play_target_witness :
  ∃ ev,
    out_emits (play alice_in code (QArith_base.inject_Z 5) 1700000000000 loaded) =
      [bo_emit (io_to code) ev] ∧
    ev = EvSyncPlay (QArith_base.inject_Z 5) 1700000000000 0 ∧
    (∀ sockets s, s ∈ sockets → code ∈ sock_rooms s →
       sock_id s ∈ recipients sockets (bo_emit (io_to code) ev)) ∧
    ∀ localNow : Z,
      client_on localNow ev =
      [ SeekTo (num_add (QArith_base.inject_Z 5)
                  (num_div (num_sub (num_of_Z localNow)
                                    (num_of_Z 1700000000000))
                           (num_of_Z 1000)))
               true;
        PlayVideo ].
Proof.
  eapply (sync_play_target alice_in code (QArith_base.inject_Z 5)
            1700000000000 loaded); by_evaluation.
Defined.

(** ** The further properties at concrete inputs *)

(** Bob asks for a room while [code] is taken: the second candidate is
    chosen. *)
Lemma create_room_fresh_witness :
  ∃ out roomCode,
    create_room bob "Bob" [code; code2] created = Some out ∧
    created !! roomCode = None ∧
    size (out_rooms out) = S (size created) ∧
    out_emits out = [socket_emit bob (EvRoomCreated roomCode)].
Proof.
  eexists _. 
  assert (Hout : create_room bob "Bob" [code; code2] created = Some _)
    by (vm_compute; reflexivity).
  destruct (create_room_fresh bob "Bob" [code; code2] created _ Hout)
    as (taken & roomCode & rest & _ & _ & Hnew & _ & _ & Hsize & _ & Hemits).
  exists roomCode. split; [exact Hout|]. by repeat split.
Defined.

(** After create, join, load, add to the queue and next, the room shows
    [uvw], which is in its queue. *)
Lemma media_always_in_queue_witness :
  ∃ rooms room,
    run media_session ∅ = Some rooms ∧
    rooms !! code = Some room ∧
    media room = JMedia uvw ∧
    uvw ∈ queue room.
Proof.
  eexists _, _. split; [vm_compute; reflexivity|].
  split; [vm_compute; reflexivity|]. split; [reflexivity|].
  eapply (media_always_in_queue media_session _ code _ uvw); by_evaluation.
Defined.

(** In the same session the queue is never navigated while empty. *)
Lemma index_valid_without_empty_navigation_witness :
  ∃ rooms room,
    run media_session ∅ = Some rooms ∧
    rooms !! code = Some room ∧
    index_valid room.
Proof.
  eexists _, _. split; [vm_compute; reflexivity|].
  split; [vm_compute; reflexivity|].
  eapply (index_valid_without_empty_navigation media_session _ code);
    by_evaluation.
Defined.

(** Alice, the host, leaves the room of three. *)
Lemma disconnect_visited_room_witness :
  out_rooms (disconnect alice_in joined) !! code = Some bob_room.
Proof.
  rewrite (disconnect_visited_room alice_in joined code full_room)
    by by_evaluation.
  vm_compute. reflexivity.
Defined.

(** Bob, who is only in the first room, disconnects: the second room is
    not touched. *)
Lemma disconnect_other_keys_witness :
  out_sock (disconnect bob_in two_rooms) = bob_in ∧
  out_rooms (disconnect bob_in two_rooms) !! code2 = two_rooms !! code2.
Proof.
  apply (disconnect_other_keys bob_in two_rooms code2).
  left. by_evaluation.
Defined.

(** Bob is in both rooms and disconnects. *)
Lemma disconnect_emits_user_left_witness :
  out_emits (disconnect bob_in_both two_rooms) =
  [ bo_emit (io_to code) (EvUserLeft "bob-sid");
    bo_emit (io_to code2) (EvUserLeft "bob-sid") ].
Proof.
  rewrite (disconnect_emits_user_left bob_in_both two_rooms) by by_evaluation.
  vm_compute. reflexivity.
Defined.

(** Bob, a member, leaves Alice's room. *)
Lemma non_host_leaving_keeps_host_witness :
  ∃ room',
    out_rooms (disconnect bob_in joined) !! code = Some room' ∧
    hostId room' = hostId full_room ∧
    users room' = filter (λ u, user_id u ≠ sock_id bob_in) (users full_room) ∧
    (sock_id bob_in ∉ user_id <$> users room') ∧
    host_is_member room'.
Proof.
  apply (non_host_leaving_keeps_host bob_in joined code full_room);
    try by_evaluation.
  exists {| user_id := "alice-sid"; user_name := "Alice" |}.
  split; [left|reflexivity].
Defined.

(** Bob joins, Alice's connection closes, Carol joins: the room is still
    Alice's, and she is still listed. *)
Lemma rooms_outlive_disconnects_witness :
  ∃ rooms' room' joined,
    run closing_session created = Some rooms' ∧
    rooms' !! code = Some room' ∧
    hostId room' = "alice-sid" ∧
    users room' = users fresh_room ++ joined.
Proof.
  eexists.
  assert (Hrun : run closing_session created = Some _)
    by (vm_compute; reflexivity).
  destruct (rooms_outlive_disconnects closing_session created _ code
              fresh_room eq_refl Hrun eq_refl)
    as (room' & joined & Hroom' & Hhost & Husers).
  exists room', joined. split; [exact Hrun|]. by repeat split.
Defined.

(** After Alice has been removed by the loop, Bob is first and host. *)
Lemma host_is_first_member_witness : host_is_first bob_room.
Proof.
  apply (host_is_first_member session alice_left code bob_room); by_evaluation.
Defined.

(** Alice leaves; Bob, promoted, seeks to 30 seconds. *)
Lemma promoted_host_can_seek_witness :
  let rooms' := out_rooms (disconnect alice_in joined) in
  ∃ room',
    rooms' !! code = Some room' ∧
    seek bob_in code (QArith_base.inject_Z 30) 1700000000002 rooms' =
    {| out_sock := bob_in;
       out_rooms :=
         <[code := set_currentTime (QArith_base.inject_Z 30) room']> rooms';
       out_emits :=
         [bo_emit (io_to code)
            (EvSyncSeek (QArith_base.inject_Z 30) 1700000000002)] |}.
Proof.
  apply (promoted_host_can_seek alice_in bob_in joined code full_room
           [{| user_id := "alice-sid"; user_name := "Alice" |}]
           {| user_id := "bob-sid"; user_name := "Bob" |}
           [{| user_id := "carol-sid"; user_name := "Carol" |}]);
    try by_evaluation.
  intros v Hv. apply list_elem_of_singleton in Hv. by subst v.
Defined.

(** From the last of three entries, next-video wraps to the first. *)
Lemma navigation_shows_queue_entry_witness :
  ∃ room',
    out_rooms (next_video alice_in code 1700000000001 queued) !! code =
      Some room' ∧
    currentIndex room' = Idx 0 ∧ media room' = JMedia xyz ∧
    isPlaying room' = false.
Proof.
  destruct (navigation_shows_queue_entry alice_in code 1700000000001 queued
              room3 Next 2)
    as (room' & m & Hroom' & Hm & Hidx & Hmedia & Hplaying & _);
    try by_evaluation.
  exists room'. split; [exact Hroom'|]. split; [exact Hidx|].
  split; [|exact Hplaying].
  rewrite Hmedia. f_equal. vm_compute in Hm. by injection Hm.
Defined.

(** From the last of three entries, prev-video then next-video. *)
Lemma navigation_round_trip_witness :
  ∃ room' m,
    navigate_all alice_in code 1700000000001 [Prev; Next] queued !! code =
      Some room' ∧
    currentIndex room' = Idx 2 ∧
    queue room' = queue room3 ∧
    queue room3 !! Z.to_nat 2 = Some m ∧
    media room' = JMedia m.
Proof.
  apply (navigation_round_trip alice_in code 1700000000001 queued room3 Prev 2);
    by_evaluation.
Defined.

(** Alice replaces the three-entry queue by [uvw]. *)
Lemma load_media_replaces_queue_witness :
  let out := load_media alice_in code uvw false queued in
  ∃ room',
    out_rooms out !! code = Some room' ∧
    queue room' = [uvw] ∧ currentIndex room' = Idx 0 ∧
    media room' = js_index (queue room') (currentIndex room') ∧
    isPlaying room' = isPlaying room3 ∧ currentTime room' = currentTime room3 ∧
    hostId room' = hostId room3 ∧ users room' = users room3 ∧
    out_emits out =
      [bo_emit (io_to code)
         (EvMediaUpdated (media room') (queue room') (currentIndex room'))].
Proof.
  apply (load_media_replaces_queue alice_in code uvw queued room3);
    by_evaluation.
Defined.

(** Bob writes under the name "Alice"; the room sees "Bob". *)
Lemma chat_uses_stored_name_witness :
  handle bob_in (SendChat code "hello" "Alice") env0 joined =
  Some {| out_sock := bob_in; out_rooms := joined;
          out_emits :=
            [bo_emit (io_to code) (EvNewChat "Bob" "hello" 1700000000000)] |}.
Proof.
  apply (chat_uses_stored_name bob_in code "hello" "Alice" env0 joined full_room
           [{| user_id := "alice-sid"; user_name := "Alice" |}]
           {| user_id := "bob-sid"; user_name := "Bob" |}
           [{| user_id := "carol-sid"; user_name := "Carol" |}]);
    try by_evaluation.
  intros v Hv. apply list_elem_of_singleton in Hv. by subst v.
Defined.

(** Carol has not joined the room she writes to. *)
Lemma chat_from_outsider_dropped_witness :
  handle carol (SendChat code "hello" "Carol") env0 created =
  Some (dropped carol created).
Proof.
  apply (chat_from_outsider_dropped carol code "hello" "Carol" env0 created).
  right; left. by_evaluation.
Defined.

(** Alice's play request in the first of two rooms. *)
Lemma control_frame_witness :
  ∃ out,
    handle alice_in (Play code (QArith_base.inject_Z 5)) env0 two_rooms =
      Some out ∧
    out_sock out = alice_in ∧
    out_rooms out !! code2 = two_rooms !! code2 ∧
    dom (out_rooms out) = dom two_rooms.
Proof.
  eexists.
  assert (Hout : handle alice_in (Play code (QArith_base.inject_Z 5)) env0
                   two_rooms = Some _) by reflexivity.
  destruct (control_frame alice_in (Play code (QArith_base.inject_Z 5)) env0
              two_rooms code _ eq_refl Hout)
    as (Hsock & Hother & Hdom & _).
  split; [exact Hout|]. split; [exact Hsock|]. split; [|exact Hdom].
  apply Hother. by_evaluation.
Defined.

(** Alice plays from 5 seconds; Carol joins afterwards. *)
Lemma snapshot_after_play_witness :
  let rooms' :=
    out_rooms (play alice_in code (QArith_base.inject_Z 5) 1700000000000
                 created) in
  out_emits (join_room carol code "Carol" rooms') =
  [ bo_emit (socket_to carol code) (EvUserJoined "Carol");
    socket_emit carol
      (EvRoomState JNull [] (Idx 0) true (QArith_base.inject_Z 5) "alice-sid"
                   ["Alice"; "Carol"]) ].
Proof.
  apply (snapshot_after_play alice_in carol code (QArith_base.inject_Z 5)
           1700000000000 "Carol" created fresh_room); by_evaluation.
Defined.

(** Carol joins the room Alice and Bob are in: Bob is told. *)
Lemma user_joined_reaches_others_witness :
  ∃ notice snapshot,
    out_emits (join_room carol code "Carol" joined) = [notice; snapshot] ∧
    "bob-sid" ∈ recipients [alice_in; bob_in; carol_in] notice ∧
    recipients [alice_in; bob_in; carol_in] snapshot = ["carol-sid"].
Proof.
  destruct (user_joined_reaches_others [alice_in; bob_in; carol_in] carol code
              "Carol" joined full_room "bob-sid")
    as (notice & snapshot & Hemits & _ & Hnotice & Hsnap); [by_evaluation|].
  exists notice, snapshot. split; [exact Hemits|]. split; [|exact Hsnap].
  apply Hnotice. exists bob_in.
  split; [right; left|]. split; [reflexivity|]. split; by_evaluation.
Defined.
